(** * Noun-phrase extraction and merging: counting and deduplication

    A shallow embedding of the bookkeeping done by
    [scripts/1_extract-noun-phrases.py] (the Extractor) and
    [scripts/2_combine-noun-phrases.py] (the Merger).

    Text is a sequence of code points below 256 ([string]); [lower],
    [strip] and [split] follow Python's [str] methods on that range.
    The noun-phrase chunker and the stop-word set come from spaCy and
    are parameters of the development.  Tables are taken as pandas reads
    them: a [title] or [date] column is a column of text or of numbers,
    and its groups come in the order of its dtype ([KeyColumn]); a cell
    of a phrase table holds text or none; counts are int64 and their sums
    wrap around.  pandas' [sort_values] is used with its default [kind],
    whose documentation promises an ordered permutation of the rows and
    nothing about ties; it is a parameter too ([sort_kind]). *)

From Stdlib Require Import String Ascii List ZArith NArith Lia Bool.
From Stdlib Require Import Permutation Sorted.
Import ListNotations.

Local Open Scope string_scope.
Local Open Scope Z_scope.

Set Implicit Arguments.

(** ** Python strings *)

Module PyStr.

(** [str.isspace] on a single code point below 256. *)
Definition is_space (c : ascii) : bool :=
  let n := N_of_ascii c in
  (((9 <=? n) && (n <=? 13)) || ((28 <=? n) && (n <=? 32))
   || (n =? 133) || (n =? 160))%N.

(** [str.lower] on a single code point below 256. *)
Definition lower_char (c : ascii) : ascii :=
  let n := N_of_ascii c in
  if (((65 <=? n) && (n <=? 90))
      || ((192 <=? n) && (n <=? 222) && negb (n =? 215)))%N
  then ascii_of_N (n + 32) else c.

Fixpoint lower (s : string) : string :=
  match s with
  | EmptyString => EmptyString
  | String c s' => String (lower_char c) (lower s')
  end.

Fixpoint lstrip (s : string) : string :=
  match s with
  | EmptyString => EmptyString
  | String c s' => if is_space c then lstrip s' else s
  end.

Fixpoint rstrip (s : string) : string :=
  match s with
  | EmptyString => EmptyString
  | String c s' =>
      match rstrip s' with
      | EmptyString => if is_space c then EmptyString else String c EmptyString
      | r => String c r
      end
  end.

(** [s.strip()] *)
Definition strip (s : string) : string := rstrip (lstrip s).

Definition push (w : string) (ws : list string) : list string :=
  match w with EmptyString => ws | _ => w :: ws end.

(** One right-to-left pass: the word being read and the words after it. *)
Fixpoint split_go (s : string) : string * list string :=
  match s with
  | EmptyString => (EmptyString, [])
  | String c s' =>
      let (w, ws) := split_go s' in
      if is_space c then (EmptyString, push w ws) else (String c w, ws)
  end.

(** [s.split()]: maximal runs of non-space characters. *)
Definition split (s : string) : list string :=
  let (w, ws) := split_go s in push w ws.

(** [sep.join(ws)] *)
Fixpoint join (sep : string) (ws : list string) : string :=
  match ws with
  | [] => EmptyString
  | [w] => w
  | w :: ws' => w ++ sep ++ join sep ws'
  end.

(** [not s] for a string [s]. *)
Definition falsy (s : string) : bool :=
  match s with EmptyString => true | _ => false end.

End PyStr.

(** ** Insertion-ordered dictionaries *)

(** Keys of a Python [dict] and of a pandas group need equality; the key
    types met in the scripts are strings, integers (a column pandas read
    as int64) and pairs such as [(title, date)]. *)
Class Hashable (K : Type) := {
  keyb : K -> K -> bool;
  keyb_spec : forall a b : K, reflect (a = b) (keyb a b)
}.

#[export] Instance Hashable_string : Hashable string :=
  {| keyb := String.eqb; keyb_spec := String.eqb_spec |}.

#[export] Instance Hashable_Z : Hashable Z :=
  {| keyb := Z.eqb; keyb_spec := Z.eqb_spec |}.

Lemma pair_eqb_spec {A B : Type} `{Hashable A} `{Hashable B} (a b : A * B) :
  reflect (a = b) (keyb (fst a) (fst b) && keyb (snd a) (snd b)).
Proof.
  destruct a as [a1 a2], b as [b1 b2]; simpl.
  destruct (keyb_spec a1 b1), (keyb_spec a2 b2); simpl;
    constructor; congruence.
Qed.

#[export] Instance Hashable_pair {A B : Type} `{Hashable A} `{Hashable B}
  : Hashable (A * B) :=
  {| keyb := fun a b => keyb (fst a) (fst b) && keyb (snd a) (snd b);
     keyb_spec := pair_eqb_spec |}.

(** A column a frame is grouped by.  Its values are compared for equality,
    and [groupby] hands the groups out in the order of the column's dtype:
    strings by code point, integers by value. *)
Class KeyColumn (K : Type) := {
  key_hashable :: Hashable K;
  key_leb : K -> K -> bool
}.

#[export] Instance object_column : KeyColumn string :=
  {| key_leb := String.leb |}.

#[export] Instance int64_column : KeyColumn Z :=
  {| key_leb := Z.leb |}.

Arguments keyb : simpl never.

Module Dict.
Section Dict.
Context {K V : Type} `{Hashable K}.

(** Entries in insertion order. *)
Definition dict := list (K * V).

Fixpoint get (k : K) (d : dict) : option V :=
  match d with
  | [] => None
  | (k', v) :: d' => if keyb k' k then Some v else get k d'
  end.

(** [d[k] = v]: an existing key keeps its position, a new key goes last. *)
Fixpoint set (k : K) (v : V) (d : dict) : dict :=
  match d with
  | [] => [(k, v)]
  | (k', v') :: d' => if keyb k' k then (k, v) :: d' else (k', v') :: set k v d'
  end.

Definition keys (d : dict) : list K := map fst d.

Definition values (d : dict) : list V := map snd d.

End Dict.
Arguments dict : clear implicits.
End Dict.

(** ** The Extractor: stop-word stripping *)

Section StopWords.

(** [nlp.Defaults.stop_words], as its membership test. *)
Variable stop_words : string -> bool.

(** The [while words and words[0].lower() in stop_words: words.pop(0)] loop. *)
Fixpoint pop_stopwords (words : list string) : list string :=
  match words with
  | [] => []
  | w :: ws => if stop_words (PyStr.lower w) then pop_stopwords ws else words
  end.

Definition strip_leading_stopwords (phrase : string) : string :=
  PyStr.join " " (pop_stopwords (PyStr.split phrase)).

End StopWords.

(** ** Data frames *)

(** A PhraseRecord: one row of a phrase table. *)
Record PhraseRecord := mkPhraseRecord {
  phrase : string;
  pos : string;
  count : Z;
  csv_source : string
}.

Definition NOUN_PHRASE : string := "NOUN_PHRASE".

Definition sum_counts (l : list Z) : Z := fold_right Z.add 0 l.

(** [sort_values("count", ascending=False)] with pandas' default [kind]:
    the rows come back rearranged, largest count first.  The default
    kind is documented as not stable, so nothing is known about rows
    with equal counts. *)
Record sort_kind := mkSortKind {
  sort_values : list PhraseRecord -> list PhraseRecord;
  sort_values_perm : forall l, Permutation l (sort_values l);
  sort_values_desc :
    forall l, StronglySorted (fun a b => count b <= count a) (sort_values l)
}.

Section Sorting.
Context {A : Type}.
Variable leb : A -> A -> bool.

Fixpoint insert_sorted (x : A) (l : list A) : list A :=
  match l with
  | [] => [x]
  | y :: l' => if leb x y then x :: l else y :: insert_sorted x l'
  end.

(** [sorted(l)] *)
Definition sorted (l : list A) : list A := fold_right insert_sorted [] l.

End Sorting.

Section Unique.
Context {K : Type} `{Hashable K}.

(** The distinct values of [l] (pandas' factorisation, Python's [set]). *)
Fixpoint unique (l : list K) : list K :=
  match l with
  | [] => []
  | x :: l' => if existsb (keyb x) l' then unique l' else x :: unique l'
  end.

End Unique.

(** Lexicographic order on two-column group keys. *)
Definition pair_leb {A B : Type} `{KeyColumn A} `{KeyColumn B} (a b : A * B)
  : bool :=
  if keyb (fst a) (fst b) then key_leb (snd a) (snd b)
  else key_leb (fst a) (fst b).

Section GroupBy.
Context {K R : Type} `{Hashable K}.
Variable key_of : R -> option K.
Variable leb : K -> K -> bool.

Definition has_key (k : K) (r : R) : bool :=
  match key_of r with Some k' => keyb k k' | None => false end.

Fixpoint present_keys (df : list R) : list K :=
  match df with
  | [] => []
  | r :: df' =>
      match key_of r with
      | Some k => k :: present_keys df'
      | None => present_keys df'
      end
  end.

(** [df.groupby(cols)]: rows with a null key cell are left out, groups
    come in sorted key order, rows keep their order inside a group. *)
Definition groupby (df : list R) : list (K * list R) :=
  map (fun k => (k, filter (has_key k) df))
      (sorted leb (unique (present_keys df))).

End GroupBy.

(** [", ".join(sorted(set(x)))] *)
Definition join_sources (x : list string) : string :=
  PyStr.join ", " (sorted String.leb (unique x)).

(** ** The Extractor *)

Definition TEXT_COLUMN : string := "sentence".

Definition TITLE_COLUMN : string := "title".

Definition DATE_COLUMN : string := "date".

Section KeyColumns.

(** The dtypes pandas gave the [title] and [date] columns of the table at
    hand: text, or numbers when every cell of the column reads as one. *)
Context {T D : Type} {title_column : KeyColumn T} {date_column : KeyColumn D}.

(** One row of an input table; [None] is a null (NaN) cell. *)
Record SentenceRecord := mkSentenceRecord {
  sentence : option string;
  title : option T;
  date : option D
}.

Record input_table := mkInputTable {
  csv_name : string;
  columns : list string;
  table_rows : list SentenceRecord
}.

Definition article_key := (T * D)%type.

(** PhraseKey -> (canonical text, count) *)
Definition phrase_dict := Dict.dict string (string * Z).

(** One row of the summary table.  [csv_file] and [output_file] are paths;
    [avg_phrases_per_article] is a rounded float; the three are left out. *)
Record table_stats := mkStats {
  st_csv_name : string;
  total_sentences : Z;
  total_articles : Z;
  unique_noun_phrases : Z;
  total_phrase_occurrences : Z
}.

Inductive extract_error :=
| FileNotFoundError
| KeyError (column : string).

Inductive csv_outcome :=
| Skipped (missing_cols : list string)
| Raised (e : extract_error)
| Processed (csv_df : list PhraseRecord) (stats : table_stats).

Record extractor_output := mkExtractorOutput {
  all_results : list (list PhraseRecord);
  combined : option (list PhraseRecord);
  summary : list table_stats
}.

Definition astype_str (cell : option string) : string :=
  match cell with Some s => s | None => "nan" end.

Definition row_article_key (r : SentenceRecord) : option article_key :=
  match title r, date r with
  | Some t, Some d => Some (t, d)
  | _, _ => None
  end.

Definition has_sentence (r : SentenceRecord) : bool :=
  match sentence r with Some _ => true | None => false end.

(** [df.dropna(subset=[TEXT_COLUMN])] *)
Definition dropna (df : list SentenceRecord) : list SentenceRecord :=
  filter has_sentence df.

Definition article_groups (df : list SentenceRecord)
  : list (article_key * list SentenceRecord) :=
  groupby row_article_key pair_leb df.

Definition missing_cols (t : input_table) : list string :=
  filter (fun col => negb (existsb (String.eqb col) (columns t)))
         [TEXT_COLUMN; TITLE_COLUMN; DATE_COLUMN].

(** The canonical text kept for a key when another form arrives. *)
Definition prefer_uppercase (new key old : string) : string :=
  if negb (String.eqb new key) && String.eqb old key then new else old.

Section Extractor.

(** [[chunk.text for chunk in nlp(sentence).noun_chunks]] *)
Variable noun_chunks : string -> list string.
Variable stop_words : string -> bool.
Variable kind : sort_kind.

(** [article_noun_phrases[article_key]] of a [defaultdict]. *)
Definition lookup_default (key : article_key)
    (anp : Dict.dict article_key phrase_dict) : phrase_dict :=
  match Dict.get key anp with Some d => d | None => [] end.

(** The body of the loop over [doc.noun_chunks]. *)
Definition count_chunk (key : article_key) (chunk_text : string)
    (anp : Dict.dict article_key phrase_dict)
  : Dict.dict article_key phrase_dict :=
  let phrase := PyStr.strip chunk_text in
  if PyStr.falsy phrase then anp else
  let phrase := strip_leading_stopwords stop_words phrase in
  if PyStr.falsy phrase then anp else
  let phrase_key := PyStr.lower phrase in
  let seen := lookup_default key anp in
  match Dict.get phrase_key seen with
  | Some (orig, n) =>
      Dict.set key
        (Dict.set phrase_key (prefer_uppercase phrase phrase_key orig, n + 1) seen)
        anp
  | None => Dict.set key (Dict.set phrase_key (phrase, 1) seen) anp
  end.

(** The chunk texts of one article, sentence after sentence. *)
Definition article_chunks (group : list SentenceRecord) : list string :=
  flat_map noun_chunks
           (map (fun r => PyStr.strip (astype_str (sentence r))) group).

Definition count_article (anp : Dict.dict article_key phrase_dict)
    (g : article_key * list SentenceRecord)
  : Dict.dict article_key phrase_dict :=
  fold_left (fun a c => count_chunk (fst g) c a) (article_chunks (snd g)) anp.

Definition article_noun_phrases (df : list SentenceRecord)
  : Dict.dict article_key phrase_dict :=
  fold_left count_article (article_groups df) [].

(** The body of the loop over [article_phrases.items()]. *)
Definition add_entry (csv_noun_dict : phrase_dict)
    (item : string * (string * Z)) : phrase_dict :=
  let '(phrase_key, (orig_phrase, n)) := item in
  match Dict.get phrase_key csv_noun_dict with
  | Some (old_orig, old_count) =>
      Dict.set phrase_key
        (prefer_uppercase orig_phrase phrase_key old_orig, old_count + n)
        csv_noun_dict
  | None => Dict.set phrase_key (orig_phrase, n) csv_noun_dict
  end.

Definition csv_noun_dict (anp : Dict.dict article_key phrase_dict)
  : phrase_dict :=
  fold_left (fun acc article_phrases => fold_left add_entry article_phrases acc)
            (Dict.values anp) [].

Definition to_record (name : string) (v : string * Z) : PhraseRecord :=
  {| phrase := fst v; pos := NOUN_PHRASE; count := snd v; csv_source := name |}.

(** [pd.DataFrame([...]).sort_values("count", ascending=False)]; a frame
    built from no rows has no columns and the sort raises. *)
Definition make_csv_df (name : string) (d : phrase_dict)
  : extract_error + list PhraseRecord :=
  match Dict.values d with
  | [] => inl (KeyError "count")
  | vs => inr (sort_values kind (map (to_record name) vs))
  end.

Definition process_csv (t : input_table) : csv_outcome :=
  match missing_cols t with
  | (_ :: _) as missing => Skipped missing
  | [] =>
      let df := dropna (table_rows t) in
      match make_csv_df (csv_name t) (csv_noun_dict (article_noun_phrases df)) with
      | inl e => Raised e
      | inr csv_df =>
          Processed csv_df
            {| st_csv_name := csv_name t;
               total_sentences := Z.of_nat (length df);
               total_articles := Z.of_nat (length (article_groups df));
               unique_noun_phrases := Z.of_nat (length csv_df);
               total_phrase_occurrences := sum_counts (map count csv_df) |}
      end
  end.

(** The Cross-Table Combiner: [combined_df.groupby("phrase")]. *)
Definition combine_group (g : string * list PhraseRecord) : PhraseRecord :=
  {| phrase := fst g;
     pos := NOUN_PHRASE;
     count := sum_counts (map count (snd g));
     csv_source := join_sources (map csv_source (snd g)) |}.

Definition aggregated (results : list (list PhraseRecord)) : list PhraseRecord :=
  let combined_df := concat results in
  sort_values kind
    (map combine_group
         (groupby (fun r => Some (phrase r)) String.leb combined_df)).

Fixpoint process_all (csv_files : list input_table)
    (results : list (list PhraseRecord)) (stats : list table_stats)
  : extract_error + (list (list PhraseRecord) * list table_stats) :=
  match csv_files with
  | [] => inr (results, stats)
  | t :: rest =>
      match process_csv t with
      | Skipped _ => process_all rest results stats
      | Raised e => inl e
      | Processed csv_df st =>
          process_all rest (results ++ [csv_df]) (stats ++ [st])
      end
  end.

Definition extractor (csv_files : list input_table)
  : extract_error + extractor_output :=
  match csv_files with
  | [] => inl FileNotFoundError
  | _ =>
      match process_all csv_files [] [] with
      | inl e => inl e
      | inr (results, stats) =>
          inr {| all_results := results;
                 combined := match results with
                             | [] => None
                             | _ => Some (aggregated results)
                             end;
                 summary := stats |}
      end
  end.

End Extractor.

(** ** The Merger *)

(** One row of a phrase table as read from disk.  A [phrase] cell holds
    text or not: [None] is a null, or a number in a column that pandas
    read as numeric.  [None] in [pos_cell] is a null.  [count] is an int64
    column. *)
Record PhraseRow := mkPhraseRow {
  phrase_cell : option string;
  pos_cell : option string;
  count_cell : Z
}.

(** A parsed table, with or without a [csv_source] column; a source cell
    that holds no text (a null, a number) is [None]. *)
Inductive frame :=
| WithSource (rows : list (PhraseRow * option string))
| WithoutSource (rows : list PhraseRow).

(** A [*.csv] entry of the folder.  [read_csv = None] stands for
    [pd.read_csv] raising, or for a table without a [phrase] column, on
    which [df['phrase']] raises. *)
Record csv_file := mkCsvFile {
  file_name : string;
  stem : string;
  read_csv : option frame
}.

(** A row of [combined_df]. *)
Record MergeRow := mkMergeRow {
  m_phrase : option string;
  m_pos : option string;
  m_count : Z;
  m_source : option string;
  phrase_lower : option string
}.

Inductive log_line :=
| Loaded (name : string) (n_rows : nat)
| ErrorLoading (name : string).

(** The exceptions that leave [merge_csvs_by_phrase]: the [ValueError] of
    line 16, the [ValueError] of [pd.concat] on an empty list, and the
    [TypeError] of [', '.join(sorted(set(x)))] on a cell that is no string. *)
Inductive merge_error :=
| NoCsvFilesFound
| NoObjectsToConcatenate
| JoinTypeError.

Definition is_text (cell : option string) : bool :=
  match cell with Some _ => true | None => false end.

(** Lines 26-27: the frame with its [csv_source] column in place. *)
Definition with_source (f : csv_file) (fr : frame)
  : list (PhraseRow * option string) :=
  match fr with
  | WithSource rows => rows
  | WithoutSource rows => map (fun r => (r, Some (stem f))) rows
  end.

(** [df['phrase'].str]: the accessor is there on a column of strings,
    nulls among them or not, and on a column without rows.  A column with
    rows of which none holds text is a float64 or int64 column, and [.str]
    raises AttributeError. *)
Definition str_accessor (column : list (option string)) : bool :=
  match column with
  | [] => true
  | _ => existsb is_text column
  end.

Definition with_lower (r : PhraseRow) (src : option string) : MergeRow :=
  {| m_phrase := phrase_cell r;
     m_pos := pos_cell r;
     m_count := count_cell r;
     m_source := src;
     phrase_lower := option_map PyStr.lower (phrase_cell r) |}.

(** The body of the [try] block; [None] when it raises. *)
Definition load_file (f : csv_file) : option (list MergeRow) :=
  match read_csv f with
  | None => None
  | Some fr =>
      let df := with_source f fr in
      if str_accessor (map (fun rs => phrase_cell (fst rs)) df)
      then Some (map (fun rs => with_lower (fst rs) (snd rs)) df)
      else None
  end.

Fixpoint load_all (csv_files : list csv_file)
  : list (list MergeRow) * list log_line :=
  match csv_files with
  | [] => ([], [])
  | f :: rest =>
      let (all_dfs, log) := load_all rest in
      match load_file f with
      | Some df => (df :: all_dfs, Loaded (file_name f) (length df) :: log)
      | None => (all_dfs, ErrorLoading (file_name f) :: log)
      end
  end.

Definition merge_key (r : MergeRow) : option (string * string) :=
  match phrase_lower r, m_pos r with
  | Some k, Some p => Some (k, p)
  | _, _ => None
  end.

(** The [first] aggregation: the first non-null value of the group. *)
Fixpoint first_valid (cells : list (option string)) : option string :=
  match cells with
  | [] => None
  | Some s :: _ => Some s
  | None :: cells' => first_valid cells'
  end.

(** Signed 64-bit wrap-around. *)
Definition wrap64 (z : Z) : Z := (z + 2 ^ 63) mod 2 ^ 64 - 2 ^ 63.

Definition add64 (a b : Z) : Z := wrap64 (a + b).

(** The [sum] aggregation of an int64 column: the cells of a group are
    added up one after the other in an int64, which wraps around. *)
Definition int64_sum (cells : list Z) : Z :=
  match cells with
  | [] => 0
  | c :: rest => fold_left add64 rest c
  end.

(** The strings of a column, when every cell is one. *)
Fixpoint all_text (cells : list (option string)) : option (list string) :=
  match cells with
  | [] => Some []
  | Some s :: cells' => option_map (cons s) (all_text cells')
  | None :: _ => None
  end.

(** [', '.join(sorted(set(x)))] on the source cells of a group: a cell
    that is no string makes [sorted] or [join] raise TypeError. *)
Definition join_cells (x : list (option string)) : option string :=
  option_map join_sources (all_text x).

(** One row of the aggregated frame; [None] when the lambda raises. *)
Definition merge_group (g : (string * string) * list MergeRow)
  : option PhraseRecord :=
  match join_cells (map m_source (snd g)) with
  | None => None
  | Some sources =>
      Some {| phrase := astype_str (first_valid (map m_phrase (snd g)));
              pos := snd (fst g);
              count := int64_sum (map m_count (snd g));
              csv_source := sources |}
  end.

Fixpoint agg (groups : list ((string * string) * list MergeRow))
  : option (list PhraseRecord) :=
  match groups with
  | [] => Some []
  | g :: groups' =>
      match merge_group g, agg groups' with
      | Some r, Some rs => Some (r :: rs)
      | _, _ => None
      end
  end.

(** [combined_df.groupby(['phrase_lower', 'pos'], as_index=False).agg(...)] *)
Definition grouped (combined_df : list MergeRow) : option (list PhraseRecord) :=
  agg (groupby merge_key pair_leb combined_df).

(** Lines 38-53: what is done with the frames that were loaded. *)
Definition merge_frames (kind : sort_kind) (all_dfs : list (list MergeRow))
  : merge_error + list PhraseRecord :=
  match all_dfs with
  | [] => inl NoObjectsToConcatenate
  | _ =>
      match grouped (concat all_dfs) with
      | None => inl JoinTypeError
      | Some merged_df => inr (sort_values kind merged_df)
      end
  end.

Definition merge_csvs_by_phrase (kind : sort_kind) (csv_files : list csv_file)
  : list log_line * (merge_error + list PhraseRecord) :=
  match csv_files with
  | [] => ([], inl NoCsvFilesFound)
  | _ =>
      let (all_dfs, log) := load_all csv_files in
      (log, merge_frames kind all_dfs)
  end.

(** ** A sort kind to run the model with *)

(** Insertion by decreasing count, a row going before the rows of equal
    count that came after it. *)
Definition goes_before (r x : PhraseRecord) : bool := count x <=? count r.

Definition sort_desc (l : list PhraseRecord) : list PhraseRecord :=
  sorted goes_before l.

(** * Properties *)

Local Open Scope list_scope.

(** ** Lists, sorting and grouping *)

Section SortingFacts.
Context {A : Type}.
Variable leb : A -> A -> bool.

Lemma insert_sorted_perm (x : A) (l : list A) :
  Permutation (x :: l) (insert_sorted leb x l).
Proof.
  induction l as [|y l IH]; simpl; [reflexivity|].
  destruct (leb x y); [reflexivity|].
  rewrite perm_swap. now constructor.
Qed.

Lemma sorted_perm (l : list A) : Permutation l (sorted leb l).
Proof.
  induction l as [|x l IH]; simpl; [constructor|].
  rewrite <- insert_sorted_perm. now constructor.
Qed.

Lemma sorted_In (x : A) (l : list A) : In x (sorted leb l) <-> In x l.
Proof.
  split; apply Permutation_in;
    [symmetry|]; apply sorted_perm.
Qed.

Lemma sorted_NoDup (l : list A) : NoDup l -> NoDup (sorted leb l).
Proof. apply Permutation_NoDup, sorted_perm. Qed.

Hypothesis leb_total : forall a b, leb a b = true \/ leb b a = true.

Lemma insert_sorted_Sorted (x : A) (l : list A) :
  Sorted (fun a b => leb a b = true) l ->
  Sorted (fun a b => leb a b = true) (insert_sorted leb x l).
Proof.
  induction 1 as [|y l Hl IH Hd]; simpl.
  - repeat constructor.
  - destruct (leb x y) eqn:E.
    + constructor; [now constructor | now constructor].
    + constructor; [exact IH|].
      destruct l as [|z l]; simpl.
      * constructor. destruct (leb_total x y); congruence.
      * destruct (leb x z); constructor.
        -- destruct (leb_total x y); congruence.
        -- now inversion Hd.
Qed.

Lemma sorted_Sorted (l : list A) :
  Sorted (fun a b => leb a b = true) (sorted leb l).
Proof.
  induction l; simpl; [constructor | now apply insert_sorted_Sorted].
Qed.

End SortingFacts.

Section UniqueFacts.
Context {K : Type} `{Hashable K}.

Lemma keyb_refl (k : K) : keyb k k = true.
Proof. destruct (keyb_spec k k); congruence. Qed.

Lemma keyb_eq (a b : K) : keyb a b = true <-> a = b.
Proof. destruct (keyb_spec a b); split; congruence. Qed.

Lemma keyb_neq (a b : K) : keyb a b = false <-> a <> b.
Proof. destruct (keyb_spec a b); split; congruence. Qed.

Lemma keyb_sym (a b : K) : keyb a b = keyb b a.
Proof. destruct (keyb_spec a b), (keyb_spec b a); congruence. Qed.

Lemma existsb_keyb (x : K) (l : list K) :
  existsb (keyb x) l = true <-> In x l.
Proof.
  rewrite existsb_exists. split.
  - intros (y & Hy & E). apply keyb_eq in E. now subst.
  - intros Hx. exists x. split; [assumption | apply keyb_refl].
Qed.

Lemma unique_In (x : K) (l : list K) : In x (unique l) <-> In x l.
Proof.
  induction l as [|y l IH]; simpl; [tauto|].
  destruct (existsb (keyb y) l) eqn:E; simpl; rewrite IH.
  - apply existsb_keyb in E. split; [tauto|]. intros [<-|]; tauto.
  - tauto.
Qed.

Lemma unique_NoDup (l : list K) : NoDup (unique l).
Proof.
  induction l as [|y l IH]; simpl; [constructor|].
  destruct (existsb (keyb y) l) eqn:E; [assumption|].
  constructor; [|assumption].
  rewrite unique_In, <- existsb_keyb. congruence.
Qed.

(** Selecting one key out of a duplicate-free list. *)
Lemma filter_key_NoDup (k : K) (l : list K) :
  NoDup l ->
  filter (fun x => keyb x k) l = if existsb (keyb k) l then [k] else [].
Proof.
  induction 1 as [|x l Hx Hl IH]; simpl; [reflexivity|].
  rewrite (keyb_sym k x).
  destruct (keyb_spec x k) as [->|Hne]; simpl.
  - rewrite IH. destruct (existsb (keyb k) l) eqn:E; [|reflexivity].
    apply existsb_keyb in E. contradiction.
  - exact IH.
Qed.

End UniqueFacts.

Lemma filter_perm_singleton {A : Type} (f : A -> bool) (l l' : list A) (x : A) :
  Permutation l l' -> filter f l = [x] -> filter f l' = [x].
Proof.
  intros HP E.
  assert (HP' : Permutation (filter f l) (filter f l')).
  { clear E. induction HP; simpl.
    - constructor.
    - destruct (f x0); [now constructor | assumption].
    - destruct (f x0), (f y); try reflexivity. apply perm_swap.
    - etransitivity; eassumption. }
  rewrite E in HP'. now apply Permutation_length_1_inv in HP'.
Qed.

Lemma filter_perm_nil {A : Type} (f : A -> bool) (l l' : list A) :
  Permutation l l' -> filter f l = [] -> filter f l' = [].
Proof.
  intros HP E.
  destruct (filter f l') as [|y t] eqn:E'; [reflexivity|].
  assert (Hy : In y (filter f l')) by (rewrite E'; now left).
  apply filter_In in Hy. destruct Hy as [Hy Hf].
  apply (Permutation_in _ (Permutation_sym HP)) in Hy.
  assert (Hin : In y (filter f l)) by (apply filter_In; auto).
  rewrite E in Hin. destruct Hin.
Qed.

Lemma sum_counts_app (a b : list Z) :
  sum_counts (a ++ b) = sum_counts a + sum_counts b.
Proof. unfold sum_counts. induction a; simpl; lia. Qed.

Lemma sum_counts_perm (a b : list Z) :
  Permutation a b -> sum_counts a = sum_counts b.
Proof. unfold sum_counts. induction 1; simpl; lia. Qed.

Section GroupByFacts.
Context {K R : Type} `{Hashable K}.
Variable key_of : R -> option K.
Variable leb : K -> K -> bool.

Definition keyed (r : R) : bool :=
  match key_of r with Some _ => true | None => false end.

Lemma present_keys_In (k : K) (df : list R) :
  In k (present_keys key_of df) <-> exists r, In r df /\ key_of r = Some k.
Proof.
  induction df as [|r df IH]; simpl.
  - split; [tauto | intros (r & [] & _)].
  - destruct (key_of r) as [k'|] eqn:E; simpl; rewrite IH; split.
    + intros [<-|(r' & Hr & E')]; eauto.
    + intros (r' & [<-|Hr] & E'); [left; congruence | eauto].
    + intros (r' & Hr & E'); eauto.
    + intros (r' & [<-|Hr] & E'); [congruence | eauto].
Qed.

Definition group_keys (df : list R) : list K :=
  sorted leb (unique (present_keys key_of df)).

Lemma group_keys_NoDup (df : list R) : NoDup (group_keys df).
Proof. apply sorted_NoDup, unique_NoDup. Qed.

Lemma group_keys_In (k : K) (df : list R) :
  In k (group_keys df) <-> exists r, In r df /\ key_of r = Some k.
Proof.
  unfold group_keys. now rewrite sorted_In, unique_In, present_keys_In.
Qed.

Lemma groupby_keys (df : list R) :
  map fst (groupby key_of leb df) = group_keys df.
Proof.
  unfold groupby. rewrite map_map. simpl. apply map_id.
Qed.

Lemma groupby_In (k : K) (g : list R) (df : list R) :
  In (k, g) (groupby key_of leb df) ->
  g = filter (has_key key_of k) df /\ exists r, In r df /\ key_of r = Some k.
Proof.
  unfold groupby. rewrite in_map_iff. intros (k' & E & Hk).
  inversion E; subst. split; [reflexivity|].
  now apply group_keys_In.
Qed.

Lemma has_key_Some (k : K) (r : R) :
  has_key key_of k r = true <-> key_of r = Some k.
Proof.
  unfold has_key. destruct (key_of r) as [k'|]; [|split; discriminate].
  rewrite keyb_eq. split; congruence.
Qed.

Lemma filter_has_key_nil (k : K) (df : list R) :
  filter (has_key key_of k) df = [] <-> ~ In k (group_keys df).
Proof.
  rewrite group_keys_In. split.
  - intros E (r & Hr & Hk).
    assert (Hin : In r (filter (has_key key_of k) df)).
    { apply filter_In. split; [assumption | now apply has_key_Some]. }
    rewrite E in Hin. destruct Hin.
  - intros Hno. destruct (filter (has_key key_of k) df) as [|r t] eqn:E;
      [reflexivity|].
    exfalso. apply Hno. exists r.
    assert (Hin : In r (filter (has_key key_of k) df)) by (rewrite E; now left).
    apply filter_In in Hin. destruct Hin as [Hin Hk].
    split; [assumption | now apply has_key_Some].
Qed.

(** The groups whose key is [k]: none, or the one made of all the rows
    carrying that key. *)
Lemma groupby_select (k : K) (df : list R) :
  filter (fun g => keyb (fst g) k) (groupby key_of leb df) =
  match filter (has_key key_of k) df with
  | [] => []
  | g => [(k, g)]
  end.
Proof.
  unfold groupby. fold (group_keys df).
  assert (E : forall ks,
    filter (fun g : K * list R => keyb (fst g) k)
           (map (fun k0 => (k0, filter (has_key key_of k0) df)) ks) =
    map (fun k0 => (k0, filter (has_key key_of k0) df))
        (filter (fun x => keyb x k) ks)).
  { induction ks as [|x ks IH]; simpl; [reflexivity|].
    destruct (keyb x k); simpl; now rewrite IH. }
  rewrite E, (filter_key_NoDup k (group_keys_NoDup df)).
  destruct (existsb (keyb k) (group_keys df)) eqn:Ex.
  - apply existsb_keyb in Ex. simpl.
    destruct (filter (has_key key_of k) df) eqn:Ef; [|reflexivity].
    apply filter_has_key_nil in Ef. contradiction.
  - assert (Hno : ~ In k (group_keys df)).
    { rewrite <- existsb_keyb. congruence. }
    apply filter_has_key_nil in Hno. now rewrite Hno.
Qed.

Lemma sum_indicator (k0 : K) (x : Z) (ks : list K) :
  NoDup ks ->
  sum_counts (map (fun k => if keyb k k0 then x else 0) ks) =
  if existsb (keyb k0) ks then x else 0.
Proof.
  induction 1 as [|k ks Hk Hks IH]; simpl; [reflexivity|].
  rewrite IH, (keyb_sym k0 k).
  destruct (keyb_spec k k0) as [->|Hne]; simpl; [|reflexivity].
  destruct (existsb (keyb k0) ks) eqn:E; [|lia].
  apply existsb_keyb in E. contradiction.
Qed.

(** Grouping neither duplicates nor drops a row that has a key: any
    quantity summed group by group is the sum over the keyed rows. *)
Lemma groupby_sum (f : R -> Z) (df : list R) :
  sum_counts (map (fun g => sum_counts (map f (snd g))) (groupby key_of leb df)) =
  sum_counts (map f (filter keyed df)).
Proof.
  unfold groupby. fold (group_keys df). rewrite map_map. simpl.
  assert (G : forall ks rows,
    NoDup ks ->
    (forall r k, In r rows -> key_of r = Some k -> In k ks) ->
    sum_counts (map (fun k => sum_counts (map f (filter (has_key key_of k) rows))) ks) =
    sum_counts (map f (filter keyed rows))).
  { intros ks rows Hks. induction rows as [|r rows IH]; intros Hcov.
    - simpl. clear. induction ks as [|k ks IHk]; simpl; [reflexivity|].
      exact IHk.
    - assert (IH' := IH (fun r' k' Hr' => Hcov r' k' (or_intror Hr'))).
      simpl. unfold keyed at 1, has_key at 1.
      destruct (key_of r) as [k0|] eqn:E.
      + simpl. rewrite <- IH'.
        assert (Hin : In k0 ks) by (eapply Hcov; [now left | exact E]).
        apply existsb_keyb in Hin.
        assert (Hfr : f r =
                      sum_counts (map (fun k => if keyb k k0 then f r else 0) ks)).
        { rewrite (sum_indicator k0 (f r) Hks). now rewrite Hin. }
        rewrite Hfr at 1.
        clear. induction ks as [|k ks IHk]; simpl; [reflexivity|].
        rewrite IHk. destruct (keyb k k0); simpl; lia.
      + exact IH'. }
  apply G; [apply group_keys_NoDup|].
  intros r k Hr Hk. apply group_keys_In. eauto.
Qed.

End GroupByFacts.

(** ** Dictionaries *)

Section DictFacts.
Context {K V : Type} `{Hashable K}.
Implicit Types (d : Dict.dict K V) (k : K) (v : V).

Lemma get_set_same k v d : Dict.get k (Dict.set k v d) = Some v.
Proof.
  induction d as [|[k' v'] d IH]; simpl.
  - now rewrite keyb_refl.
  - destruct (keyb k' k) eqn:E; simpl; [now rewrite keyb_refl | now rewrite E].
Qed.

Lemma get_set_other k k' v d :
  k <> k' -> Dict.get k' (Dict.set k v d) = Dict.get k' d.
Proof.
  intros Hne. induction d as [|[k0 v0] d IH]; simpl.
  - apply keyb_neq in Hne. now rewrite Hne.
  - destruct (keyb_spec k0 k) as [->|Hk]; simpl.
    + apply keyb_neq in Hne. now rewrite Hne.
    + now rewrite IH.
Qed.

Lemma set_fresh k v d : Dict.get k d = None -> Dict.set k v d = d ++ [(k, v)].
Proof.
  induction d as [|[k0 v0] d IH]; simpl; [reflexivity|].
  destruct (keyb k0 k); [discriminate|]. intros Hd. now rewrite IH.
Qed.

Lemma set_last k v v' d :
  Dict.get k d = None -> Dict.set k v' (d ++ [(k, v)]) = d ++ [(k, v')].
Proof.
  induction d as [|[k0 v0] d IH]; simpl.
  - now rewrite keyb_refl.
  - destruct (keyb k0 k); [discriminate|]. intros Hd. now rewrite IH.
Qed.

Lemma get_app k d d' :
  Dict.get k (d ++ d') =
  match Dict.get k d with Some v => Some v | None => Dict.get k d' end.
Proof.
  induction d as [|[k0 v0] d IH]; simpl; [reflexivity|].
  now destruct (keyb k0 k).
Qed.

Lemma get_None_keys k d : Dict.get k d = None <-> ~ In k (Dict.keys d).
Proof.
  induction d as [|[k0 v0] d IH]; simpl; [tauto|].
  destruct (keyb_spec k0 k) as [->|Hne].
  - split; [discriminate | tauto].
  - rewrite IH. tauto.
Qed.

Lemma keys_set k v d :
  Dict.keys (Dict.set k v d) =
  match Dict.get k d with Some _ => Dict.keys d | None => Dict.keys d ++ [k] end.
Proof.
  induction d as [|[k0 v0] d IH]; simpl; [reflexivity|].
  destruct (keyb_spec k0 k) as [->|Hne]; simpl; [reflexivity|].
  rewrite IH. now destruct (Dict.get k d).
Qed.

Lemma keys_set_NoDup k v d :
  NoDup (Dict.keys d) -> NoDup (Dict.keys (Dict.set k v d)).
Proof.
  intros Hd. rewrite keys_set.
  destruct (Dict.get k d) eqn:E; [assumption|].
  apply get_None_keys in E.
  apply NoDup_app; [assumption | repeat constructor; simpl; tauto |].
  intros x Hx [<-|[]]. contradiction.
Qed.

End DictFacts.

(** ** The Extractor, article by article *)

Section ExtractorFacts.
Variable noun_chunks : string -> list string.
Variable stop_words : string -> bool.

(** The phrase a chunk is counted under, if it is counted at all. *)
Definition kept_phrase (chunk_text : string) : option string :=
  let phrase := PyStr.strip chunk_text in
  if PyStr.falsy phrase then None else
  let phrase := strip_leading_stopwords stop_words phrase in
  if PyStr.falsy phrase then None else Some phrase.

Fixpoint kept_phrases (chunks : list string) : list string :=
  match chunks with
  | [] => []
  | c :: cs =>
      match kept_phrase c with
      | Some p => p :: kept_phrases cs
      | None => kept_phrases cs
      end
  end.

(** What counting one phrase does to the article's own dictionary. *)
Definition store (seen : phrase_dict) (phrase : string) : phrase_dict :=
  let phrase_key := PyStr.lower phrase in
  match Dict.get phrase_key seen with
  | Some (orig, n) =>
      Dict.set phrase_key (prefer_uppercase phrase phrase_key orig, n + 1) seen
  | None => Dict.set phrase_key (phrase, 1) seen
  end.

(** The phrase occurrences of one article, in reading order. *)
Definition article_phrases (group : list SentenceRecord) : list string :=
  kept_phrases (article_chunks noun_chunks group).

Definition article_dict (group : list SentenceRecord) : phrase_dict :=
  fold_left store (article_phrases group) [].

Lemma count_chunk_store key c anp :
  count_chunk stop_words key c anp =
  match kept_phrase c with
  | None => anp
  | Some p => Dict.set key (store (lookup_default key anp) p) anp
  end.
Proof.
  unfold count_chunk, kept_phrase, store.
  destruct (PyStr.falsy (PyStr.strip c)); [reflexivity|].
  destruct (PyStr.falsy _); [reflexivity|].
  destruct (Dict.get _ (lookup_default key anp)) as [[orig n]|]; reflexivity.
Qed.

Lemma count_chunks_started key chunks anp d :
  Dict.get key anp = None ->
  fold_left (fun a c => count_chunk stop_words key c a) chunks (anp ++ [(key, d)]) =
  anp ++ [(key, fold_left store (kept_phrases chunks) d)].
Proof.
  intros Hfresh. revert d.
  induction chunks as [|c cs IH]; intros d; simpl; [reflexivity|].
  rewrite count_chunk_store. destruct (kept_phrase c) as [p|]; simpl; [|apply IH].
  unfold lookup_default. rewrite get_app, Hfresh. simpl. rewrite keyb_refl.
  rewrite set_last by assumption. apply IH.
Qed.

Lemma count_chunks_fresh key chunks anp :
  Dict.get key anp = None ->
  fold_left (fun a c => count_chunk stop_words key c a) chunks anp =
  match kept_phrases chunks with
  | [] => anp
  | ps => anp ++ [(key, fold_left store ps [])]
  end.
Proof.
  intros Hfresh.
  induction chunks as [|c cs IH]; simpl; [reflexivity|].
  rewrite count_chunk_store. destruct (kept_phrase c) as [p|]; simpl; [|apply IH].
  unfold lookup_default. rewrite Hfresh.
  rewrite set_fresh by assumption.
  now rewrite count_chunks_started.
Qed.

(** The entry an article leaves in [article_noun_phrases]. *)
Definition article_entry (g : article_key * list SentenceRecord)
  : Dict.dict article_key phrase_dict :=
  match article_phrases (snd g) with
  | [] => []
  | _ => [(fst g, article_dict (snd g))]
  end.

Lemma count_article_fresh anp g :
  Dict.get (fst g) anp = None ->
  count_article noun_chunks stop_words anp g = anp ++ article_entry g.
Proof.
  intros Hfresh. unfold count_article, article_entry, article_dict, article_phrases.
  rewrite count_chunks_fresh by assumption.
  destruct (kept_phrases _); [now rewrite app_nil_r | reflexivity].
Qed.

Lemma article_entry_keys g k :
  In k (Dict.keys (article_entry g)) -> k = fst g.
Proof.
  unfold article_entry. destruct (article_phrases (snd g)); simpl; [tauto|].
  intros [<-|[]]. reflexivity.
Qed.

Lemma count_articles_fresh gs anp :
  NoDup (map fst gs) ->
  (forall g, In g gs -> Dict.get (fst g) anp = None) ->
  fold_left (count_article noun_chunks stop_words) gs anp =
  anp ++ flat_map article_entry gs.
Proof.
  revert anp. induction gs as [|g gs IH]; intros anp Hnd Hfresh; simpl.
  - now rewrite app_nil_r.
  - inversion Hnd as [|? ? Hg Hgs]; subst.
    rewrite count_article_fresh by (apply Hfresh; now left).
    rewrite IH; [now rewrite <- app_assoc | assumption |].
    intros g' Hg'. rewrite get_app, (Hfresh g') by now right.
    apply get_None_keys. intros Hin. apply article_entry_keys in Hin.
    apply Hg. rewrite <- Hin. now apply in_map.
Qed.

Theorem article_noun_phrases_entries df :
  article_noun_phrases noun_chunks stop_words df =
  flat_map article_entry (article_groups df).
Proof.
  unfold article_noun_phrases.
  rewrite count_articles_fresh; [reflexivity | | reflexivity].
  unfold article_groups. rewrite groupby_keys. apply group_keys_NoDup.
Qed.

Lemma entries_keys gs k :
  In k (Dict.keys (flat_map article_entry gs)) -> In k (map fst gs).
Proof.
  induction gs as [|g gs IH]; simpl; [tauto|].
  unfold Dict.keys in *. rewrite map_app, in_app_iff.
  intros [Hk|Hk]; [left | right; now apply IH].
  symmetry. now apply article_entry_keys.
Qed.

Lemma entries_lookup gs key group :
  NoDup (map fst gs) -> In (key, group) gs ->
  lookup_default key (flat_map article_entry gs) = article_dict group.
Proof.
  unfold lookup_default.
  induction gs as [|g gs IH]; intros Hnd Hin; [destruct Hin|].
  inversion Hnd as [|? ? Hg Hgs]; subst. simpl. rewrite get_app.
  destruct Hin as [->|Hin].
  - simpl in Hg.
    assert (Hrest : Dict.get key (flat_map article_entry gs) = None).
    { apply get_None_keys. intros Hk. now apply entries_keys in Hk. }
    unfold article_entry at 1. simpl.
    destruct (article_phrases group) eqn:E; simpl.
    + rewrite Hrest. unfold article_dict. now rewrite E.
    + now rewrite keyb_refl.
  - assert (Hhere : Dict.get key (article_entry g) = None).
    { apply get_None_keys. intros Hk. apply article_entry_keys in Hk.
      apply Hg. rewrite <- Hk. now apply (in_map fst) in Hin. }
    rewrite Hhere. now apply IH.
Qed.

(** The dictionary kept for an article is the one obtained by counting
    its own phrase occurrences, whatever else the table holds. *)
Theorem article_lookup df key group :
  In (key, group) (article_groups df) ->
  lookup_default key (article_noun_phrases noun_chunks stop_words df) =
  article_dict group.
Proof.
  intros Hin. rewrite article_noun_phrases_entries.
  apply entries_lookup; [|assumption].
  unfold article_groups. rewrite groupby_keys. apply group_keys_NoDup.
Qed.

End ExtractorFacts.

(** ** One PhraseKey at a time *)

Definition count_in (k : string) (d : phrase_dict) : Z :=
  match Dict.get k d with Some (_, n) => n | None => 0 end.

Definition canonical (k : string) (d : phrase_dict) : option string :=
  option_map fst (Dict.get k d).

(** What either accumulation loop does to the entry of the key it hits. *)
Definition merge_into (k : string) (e : option (string * Z)) (v : string * Z)
  : option (string * Z) :=
  Some match e with
       | Some (old, m) => (prefer_uppercase (fst v) k old, m + snd v)
       | None => v
       end.

(** The first form that is not the all-lowercase key. *)
Definition first_cased (k : string) (forms : list string) : option string :=
  find (fun p => negb (String.eqb p k)) forms.

(** The entry of [k] after its occurrences [forms] were counted one by one. *)
Definition tally (k : string) (forms : list string) : option (string * Z) :=
  fold_left (merge_into k) (map (fun p => (p, 1)) forms) None.

Definition same_key (k : string) (p : string) : bool :=
  String.eqb (PyStr.lower p) k.

Lemma merge_fold_Some k vs o m :
  fold_left (merge_into k) vs (Some (o, m)) =
  Some (if String.eqb o k
        then match first_cased k (map fst vs) with Some f => f | None => o end
        else o,
        m + sum_counts (map snd vs)).
Proof.
  revert o m. induction vs as [|[p n] vs IH]; intros o m; simpl.
  - rewrite Z.add_0_r. now destruct (String.eqb o k).
  - change (merge_into k (Some (o, m)) (p, n))
      with (Some (prefer_uppercase p k o, m + n)).
    rewrite IH. unfold prefer_uppercase. simpl.
    destruct (String.eqb_spec o k) as [->|Ho];
      destruct (String.eqb_spec p k) as [->|Hp]; simpl.
    + rewrite String.eqb_refl. now rewrite Z.add_assoc.
    + destruct (String.eqb_spec p k); [contradiction|]. now rewrite Z.add_assoc.
    + destruct (String.eqb_spec o k); [contradiction|]. now rewrite Z.add_assoc.
    + destruct (String.eqb_spec o k); [contradiction|]. now rewrite Z.add_assoc.
Qed.

Lemma sum_ones (l : list string) :
  sum_counts (map snd (map (fun p : string => (p, 1)) l)) = Z.of_nat (length l).
Proof.
  induction l as [|x l IHl]; [reflexivity|].
  cbn [map snd sum_counts fold_right length] in *.
  unfold sum_counts in IHl. rewrite IHl. lia.
Qed.

Lemma tally_cons k f0 rest :
  tally k (f0 :: rest) =
  Some (match first_cased k (f0 :: rest) with Some f => f | None => f0 end,
        Z.of_nat (length (f0 :: rest))).
Proof.
  change (tally k (f0 :: rest))
    with (fold_left (merge_into k) (map (fun p => (p, 1)) rest) (Some (f0, 1))).
  rewrite merge_fold_Some, sum_ones. rewrite map_map. cbn [fst]. rewrite map_id.
  unfold first_cased. cbn [find length]. rewrite Nat2Z.inj_succ.
  replace (Z.succ (Z.of_nat (length rest))) with (1 + Z.of_nat (length rest)) by lia.
  now destruct (String.eqb f0 k).
Qed.

(** Counting the occurrences of a group at once, or merging the group's
    own entry, comes to the same entry. *)
Lemma merge_into_tally k e forms v :
  tally k forms = Some v ->
  merge_into k e v = fold_left (merge_into k) (map (fun p => (p, 1)) forms) e.
Proof.
  destruct forms as [|f0 rest]; [discriminate|].
  rewrite tally_cons.
  assert (Hfc : match first_cased k (f0 :: rest) with
                | Some f => String.eqb f k = false
                | None => f0 = k
                end).
  { destruct (first_cased k (f0 :: rest)) as [f|] eqn:E.
    - apply find_some in E. destruct E as [_ E]. now apply negb_true_iff in E.
    - unfold first_cased in E. cbn [find] in E.
      destruct (String.eqb_spec f0 k) as [->|]; [reflexivity | discriminate]. }
  destruct e as [[o m]|].
  - rewrite merge_fold_Some, sum_ones, map_map. cbn [fst]. rewrite map_id.
    destruct (first_cased k (f0 :: rest)) as [f|]; intros [= <-];
      unfold merge_into, prefer_uppercase; cbn [fst snd]; do 2 f_equal.
    + rewrite Hfc. simpl. now destruct (String.eqb o k).
    + subst f0. rewrite String.eqb_refl. simpl.
      destruct (String.eqb_spec o k); congruence.
  - intros [= <-]. symmetry. apply (tally_cons k f0 rest).
Qed.

Section KeyFacts.
Variable noun_chunks : string -> list string.
Variable stop_words : string -> bool.

Lemma get_store k d p :
  Dict.get k (store d p) =
  if same_key k p then merge_into k (Dict.get k d) (p, 1) else Dict.get k d.
Proof.
  unfold store, same_key, merge_into.
  destruct (String.eqb_spec (PyStr.lower p) k) as [<-|Hne].
  - destruct (Dict.get (PyStr.lower p) d) as [[o n]|]; now rewrite get_set_same.
  - destruct (Dict.get (PyStr.lower p) d) as [[o n]|];
      now rewrite get_set_other.
Qed.

Lemma get_fold_store k ps d :
  Dict.get k (fold_left store ps d) =
  fold_left (merge_into k) (map (fun p => (p, 1)) (filter (same_key k) ps))
            (Dict.get k d).
Proof.
  revert d. induction ps as [|p ps IH]; intros d; simpl; [reflexivity|].
  rewrite IH, get_store. now destruct (same_key k p).
Qed.

Lemma get_add_entry k acc k' v :
  Dict.get k (add_entry acc (k', v)) =
  if String.eqb k' k then merge_into k (Dict.get k acc) v else Dict.get k acc.
Proof.
  unfold add_entry, merge_into. destruct v as [o n].
  destruct (String.eqb_spec k' k) as [<-|Hne].
  - destruct (Dict.get k' acc) as [[oo nn]|]; now rewrite get_set_same.
  - destruct (Dict.get k' acc) as [[oo nn]|]; now rewrite get_set_other.
Qed.

Lemma store_keys_NoDup ps d :
  NoDup (Dict.keys d) -> NoDup (Dict.keys (fold_left store ps d)).
Proof.
  revert d. induction ps as [|p ps IH]; intros d Hd; simpl; [assumption|].
  apply IH. unfold store.
  destruct (Dict.get (PyStr.lower p) d) as [[o n]|]; now apply keys_set_NoDup.
Qed.

Lemma add_entry_keys_NoDup items d :
  NoDup (Dict.keys d) -> NoDup (Dict.keys (fold_left add_entry items d)).
Proof.
  revert d. induction items as [|[k [o n]] items IH]; intros d Hd; simpl;
    [assumption|].
  apply IH.
  destruct (Dict.get k d) as [[oo nn]|]; now apply keys_set_NoDup.
Qed.

(** Per article: the entry of a key is the tally of its occurrences. *)
Theorem article_dict_tally k group :
  Dict.get k (article_dict noun_chunks stop_words group) =
  tally k (filter (same_key k) (article_phrases noun_chunks stop_words group)).
Proof. unfold article_dict. now rewrite get_fold_store. Qed.

End KeyFacts.

(** ** The Extractor, table by table *)

Lemma fold_left_concat {A B : Type} (f : A -> B -> A) (ls : list (list B)) (a : A) :
  fold_left (fun acc l => fold_left f l acc) ls a = fold_left f (concat ls) a.
Proof.
  revert a. induction ls as [|l ls IH]; intros a; simpl; [reflexivity|].
  now rewrite fold_left_app, IH.
Qed.

Lemma filter_flat_map {A B : Type} (p : B -> bool) (f : A -> list B) (l : list A) :
  filter p (flat_map f l) = flat_map (fun x => filter p (f x)) l.
Proof.
  induction l as [|x l IH]; simpl; [reflexivity|].
  now rewrite filter_app, IH.
Qed.

Lemma map_flat_map {A B C : Type} (h : B -> C) (f : A -> list B) (l : list A) :
  map h (flat_map f l) = flat_map (fun x => map h (f x)) l.
Proof.
  induction l as [|x l IH]; simpl; [reflexivity|].
  now rewrite map_app, IH.
Qed.

Definition entry_list (e : option (string * Z)) : list (string * Z) :=
  match e with Some v => [v] | None => [] end.

Lemma select_key_NoDup (k : string) (d : phrase_dict) :
  NoDup (Dict.keys d) ->
  map snd (filter (fun it => String.eqb (fst it) k) d) = entry_list (Dict.get k d).
Proof.
  induction d as [|[k0 v0] d IH]; simpl; intros Hnd; [reflexivity|].
  inversion Hnd as [|? ? Hk Hd]; subst.
  change (keyb k0 k) with (String.eqb k0 k).
  destruct (String.eqb_spec k0 k) as [->|Hne]; simpl.
  - rewrite (IH Hd).
    assert (E : Dict.get k d = None) by now apply get_None_keys.
    now rewrite E.
  - now apply IH.
Qed.

Section TableFacts.
Variable noun_chunks : string -> list string.
Variable stop_words : string -> bool.

(** Every phrase occurrence of a table, in processing order: article
    groups in key order, sentences in row order. *)
Definition table_phrases (df : list SentenceRecord) : list string :=
  flat_map (fun g => article_phrases noun_chunks stop_words (snd g))
           (article_groups df).

Definition table_dict (df : list SentenceRecord) : phrase_dict :=
  csv_noun_dict (article_noun_phrases noun_chunks stop_words df).

Lemma article_dict_NoDup group :
  NoDup (Dict.keys (article_dict noun_chunks stop_words group)).
Proof. apply store_keys_NoDup. constructor. Qed.

Lemma entries_items (gs : list (article_key * list SentenceRecord)) :
  concat (Dict.values (flat_map (article_entry noun_chunks stop_words) gs)) =
  flat_map (fun g => article_dict noun_chunks stop_words (snd g)) gs.
Proof.
  induction gs as [|g gs IH]; simpl; [reflexivity|].
  unfold Dict.values in *. rewrite map_app, concat_app, IH. f_equal.
  unfold article_entry, article_dict.
  destruct (article_phrases noun_chunks stop_words (snd g)); simpl;
    [reflexivity | apply app_nil_r].
Qed.

Lemma get_fold_add_entry k items acc :
  Dict.get k (fold_left add_entry items acc) =
  fold_left (merge_into k)
            (map snd (filter (fun it => String.eqb (fst it) k) items))
            (Dict.get k acc).
Proof.
  revert acc. induction items as [|[k' v] items IH]; intros acc;
    [reflexivity|].
  cbn [fold_left filter fst]. rewrite IH, get_add_entry.
  now destruct (String.eqb k' k).
Qed.

Lemma merge_groups k (gs : list (article_key * list SentenceRecord)) e :
  fold_left (merge_into k)
    (flat_map (fun g => entry_list
                 (Dict.get k (article_dict noun_chunks stop_words (snd g)))) gs) e =
  fold_left (merge_into k)
    (map (fun p => (p, 1))
         (filter (same_key k)
                 (flat_map (fun g => article_phrases noun_chunks stop_words (snd g))
                           gs))) e.
Proof.
  revert e. induction gs as [|g gs IH]; intros e; simpl; [reflexivity|].
  rewrite filter_app, map_app, !fold_left_app, IH. f_equal.
  rewrite article_dict_tally.
  set (forms := filter (same_key k)
                       (article_phrases noun_chunks stop_words (snd g))).
  destruct (tally k forms) as [v|] eqn:E.
  - simpl. now apply merge_into_tally.
  - destruct forms as [|f0 rest]; [reflexivity|].
    rewrite tally_cons in E. discriminate.
Qed.

Lemma table_dict_items df :
  table_dict df =
  fold_left add_entry
            (flat_map (fun g => article_dict noun_chunks stop_words (snd g))
                      (article_groups df)) [].
Proof.
  unfold table_dict, csv_noun_dict.
  now rewrite fold_left_concat, article_noun_phrases_entries, entries_items.
Qed.

(** Per table: the entry of a key is the tally of all its occurrences. *)
Theorem table_dict_tally k df :
  Dict.get k (table_dict df) = tally k (filter (same_key k) (table_phrases df)).
Proof.
  rewrite table_dict_items, get_fold_add_entry.
  rewrite filter_flat_map, map_flat_map.
  rewrite (flat_map_ext _ (fun g => entry_list
             (Dict.get k (article_dict noun_chunks stop_words (snd g))))).
  - apply merge_groups.
  - intros g. apply select_key_NoDup, article_dict_NoDup.
Qed.

Lemma table_dict_NoDup df : NoDup (Dict.keys (table_dict df)).
Proof. rewrite table_dict_items. apply add_entry_keys_NoDup. constructor. Qed.

End TableFacts.

(** * The claims *)

(** ** C1 *)

(** C1. Per-article count fidelity: for every article group of a table, the
    count recorded under a PhraseKey in that article's dictionary is the
    number of phrase occurrences of the article that map to the key; every
    occurrence adds 1.  A key with no occurrence has no entry (count 0). *)
Theorem C1_per_article_count
    (noun_chunks : string -> list string) (stop_words : string -> bool)
    (df : list SentenceRecord) (key : article_key)
    (group : list SentenceRecord) (k : string) :
  In (key, group) (article_groups df) ->
  count_in k (lookup_default key (article_noun_phrases noun_chunks stop_words df)) =
  Z.of_nat (length (filter (same_key k)
                           (article_phrases noun_chunks stop_words group))).
Proof.
  intros Hin. rewrite (article_lookup noun_chunks stop_words _ _ _ Hin).
  unfold count_in. rewrite article_dict_tally.
  destruct (filter _ _) as [|f0 rest]; [reflexivity|].
  now rewrite tally_cons.
Qed.

(** ** C4 *)

Lemma tally_first_cased k forms f :
  first_cased k forms = Some f ->
  exists n, tally k forms = Some (f, n) /\ f <> k.
Proof.
  intros Hf. destruct forms as [|f0 rest]; [discriminate|].
  rewrite tally_cons, Hf. eexists. split; [reflexivity|].
  apply find_some in Hf. destruct Hf as [_ Hf].
  apply negb_true_iff in Hf. now apply String.eqb_neq in Hf.
Qed.

(** C4. Canonical casing at the two scopes of the Extractor: when the
    occurrences counted under a PhraseKey [k] include a form other than the
    all-lowercase [k], the text kept for [k] is the first such form in
    processing order, hence differs from [k]; this holds for the dictionary
    of an article and for the dictionary of a table.  "Accra" (count 3) and
    "accra" (count 2) merge to ("Accra", 5) in either order. *)
Theorem C4_canonical_casing
    (noun_chunks : string -> list string) (stop_words : string -> bool)
    (df : list SentenceRecord) (k f : string) :
  (forall key group,
     In (key, group) (article_groups df) ->
     first_cased k (filter (same_key k)
                           (article_phrases noun_chunks stop_words group)) = Some f ->
     canonical k (lookup_default key
                    (article_noun_phrases noun_chunks stop_words df)) = Some f
     /\ f <> k) /\
  (first_cased k (filter (same_key k)
                         (table_phrases noun_chunks stop_words df)) = Some f ->
   canonical k (table_dict noun_chunks stop_words df) = Some f /\ f <> k) /\
  fold_left add_entry [("accra", ("Accra", 3)); ("accra", ("accra", 2))] []
    = [("accra", ("Accra", 5))] /\
  fold_left add_entry [("accra", ("accra", 2)); ("accra", ("Accra", 3))] []
    = [("accra", ("Accra", 5))].
Proof.
  split; [|split; [|split; reflexivity]].
  - intros key group Hin Hf.
    rewrite (article_lookup noun_chunks stop_words _ _ _ Hin).
    unfold canonical. rewrite article_dict_tally.
    destruct (tally_first_cased _ _ Hf) as (n & -> & Hne). now split.
  - intros Hf. unfold canonical. rewrite table_dict_tally.
    destruct (tally_first_cased _ _ Hf) as (n & -> & Hne). now split.
Qed.

(** ** C8 *)

Lemma pop_stopwords_skipn (stop_words : string -> bool) (ws : list string) :
  exists n,
    pop_stopwords stop_words ws = skipn n ws /\
    (forall w, In w (firstn n ws) -> stop_words (PyStr.lower w) = true) /\
    (forall w, nth_error ws n = Some w -> stop_words (PyStr.lower w) = false).
Proof.
  induction ws as [|w ws (n & Hpop & Hbefore & Hnext)]; simpl.
  - exists 0%nat. repeat split; simpl; [tauto | discriminate].
  - destruct (stop_words (PyStr.lower w)) eqn:E.
    + exists (S n). simpl. repeat split; [assumption | | assumption].
      intros w' [<-|Hw']; [assumption | now apply Hbefore].
    + exists 0%nat. simpl. repeat split; [tauto|].
      intros w' [= <-]. assumption.
Qed.

Lemma split_go_nonempty (s : string) :
  Forall (fun w => w <> EmptyString) (snd (PyStr.split_go s)).
Proof.
  induction s as [|c s IH]; simpl; [constructor|].
  destruct (PyStr.split_go s) as [w ws]. simpl in IH.
  destruct (PyStr.is_space c); simpl; [|assumption].
  destruct w; simpl; [assumption|]. constructor; [discriminate | assumption].
Qed.

Lemma split_nonempty (s : string) :
  Forall (fun w => w <> EmptyString) (PyStr.split s).
Proof.
  unfold PyStr.split. pose proof (split_go_nonempty s) as Hs.
  destruct (PyStr.split_go s) as [w ws]. simpl in Hs.
  destruct w; simpl; [assumption|]. constructor; [discriminate | assumption].
Qed.

Lemma join_empty (sep : string) (ws : list string) :
  Forall (fun w => w <> EmptyString) ws ->
  PyStr.join sep ws = EmptyString -> ws = [].
Proof.
  destruct ws as [|w ws]; [reflexivity|].
  intros Hws. inversion Hws as [|? ? Hw _]; subst. simpl.
  destruct ws; [contradiction|].
  destruct w; [contradiction | discriminate].
Qed.

Lemma pop_stopwords_nil (stop_words : string -> bool) (ws : list string) :
  pop_stopwords stop_words ws = [] <->
  (forall w, In w ws -> stop_words (PyStr.lower w) = true).
Proof.
  induction ws as [|w ws IH]; simpl; [tauto|].
  destruct (stop_words (PyStr.lower w)) eqn:E.
  - rewrite IH. split; [intros Hall w' [<-|Hw']; auto | auto].
  - split; [discriminate|]. intros Hall. rewrite Hall in E by now left.
    discriminate.
Qed.

Lemma pop_stopwords_nonempty (stop_words : string -> bool) (ws : list string) :
  Forall (fun w => w <> EmptyString) ws ->
  Forall (fun w => w <> EmptyString) (pop_stopwords stop_words ws).
Proof.
  induction 1 as [|w ws Hw Hws IH]; simpl; [constructor|].
  destruct (stop_words (PyStr.lower w)); [assumption | now constructor].
Qed.

(** C8. Stop-word stripping: the phrase kept for a chunk is its words with
    the maximal leading run of stop words (compared in lowercase) removed,
    joined by single spaces; it is empty exactly when every word is a stop
    word; a chunk whose phrase comes out empty leaves the dictionaries as
    they are, and any other chunk is counted under the lowercase of the
    stripped phrase.  With "the" a stop word, "the economic growth" becomes
    "economic growth" and "the" becomes empty. *)
Theorem C8_stopword_stripping (stop_words : string -> bool) :
  (forall phrase, exists n,
     strip_leading_stopwords stop_words phrase
       = PyStr.join " " (skipn n (PyStr.split phrase)) /\
     (forall w, In w (firstn n (PyStr.split phrase)) ->
                stop_words (PyStr.lower w) = true) /\
     (forall w, nth_error (PyStr.split phrase) n = Some w ->
                stop_words (PyStr.lower w) = false)) /\
  (forall phrase,
     strip_leading_stopwords stop_words phrase = EmptyString <->
     (forall w, In w (PyStr.split phrase) -> stop_words (PyStr.lower w) = true)) /\
  (forall key chunk anp,
     strip_leading_stopwords stop_words (PyStr.strip chunk) = EmptyString ->
     count_chunk stop_words key chunk anp = anp) /\
  (forall key chunk anp,
     strip_leading_stopwords stop_words (PyStr.strip chunk) <> EmptyString ->
     count_chunk stop_words key chunk anp =
     Dict.set key
       (store (lookup_default key anp)
              (strip_leading_stopwords stop_words (PyStr.strip chunk)))
       anp) /\
  (stop_words "the" = true -> stop_words "economic" = false ->
   strip_leading_stopwords stop_words "the economic growth" = "economic growth"
   /\ strip_leading_stopwords stop_words "the" = EmptyString).
Proof.
  repeat apply conj.
  - intros phrase. unfold strip_leading_stopwords.
    destruct (pop_stopwords_skipn stop_words (PyStr.split phrase))
      as (n & -> & Hbefore & Hnext).
    exists n. auto.
  - intros phrase. unfold strip_leading_stopwords.
    rewrite <- pop_stopwords_nil. split.
    + apply join_empty, pop_stopwords_nonempty, split_nonempty.
    + now intros ->.
  - intros key chunk anp Hempty. rewrite count_chunk_store.
    unfold kept_phrase. rewrite Hempty.
    now destruct (PyStr.falsy (PyStr.strip chunk)).
  - intros key chunk anp Hkept. rewrite count_chunk_store.
    unfold kept_phrase.
    destruct (PyStr.strip chunk) as [|c s] eqn:E; [now elim Hkept|].
    simpl PyStr.falsy. cbv iota.
    destruct (strip_leading_stopwords stop_words (String c s)); [now elim Hkept|].
    reflexivity.
  - intros Hthe Heconomic. unfold strip_leading_stopwords.
    change (PyStr.split "the economic growth") with ["the"; "economic"; "growth"].
    change (PyStr.split "the") with ["the"].
    cbn [pop_stopwords].
    change (PyStr.lower "the") with "the". rewrite Hthe.
    change (PyStr.lower "economic") with "economic". rewrite Heconomic.
    split; reflexivity.
Qed.

(** ** Rows and occurrences *)

Lemma filter_perm {A : Type} (f : A -> bool) (l l' : list A) :
  Permutation l l' -> Permutation (filter f l) (filter f l').
Proof.
  induction 1 as [|x l l' HP IH|x y l|l l' l'' HP1 IH1 HP2 IH2]; simpl.
  - constructor.
  - destruct (f x); [now constructor | assumption].
  - destruct (f x), (f y); try reflexivity. apply perm_swap.
  - etransitivity; eassumption.
Qed.

Lemma filter_map_select {A B : Type} (p : B -> bool) (q : A -> bool)
    (f : A -> B) (l : list A) :
  (forall x, In x l -> p (f x) = q x) ->
  filter p (map f l) = map f (filter q l).
Proof.
  induction l as [|x l IH]; intros Hpq; simpl; [reflexivity|].
  rewrite (Hpq x) by now left.
  rewrite IH by (intros y Hy; apply Hpq; now right).
  now destruct (q x).
Qed.

Lemma length_flat_map_filter {A : Type} (p : string -> bool)
    (g : A -> list string) (l : list A) :
  Z.of_nat (length (filter p (flat_map g l))) =
  sum_counts (map (fun x => Z.of_nat (length (filter p (g x)))) l).
Proof.
  induction l as [|x l IH]; simpl; [reflexivity|].
  rewrite filter_app, length_app, Nat2Z.inj_add, IH. reflexivity.
Qed.

Section RowFacts.
Variable noun_chunks : string -> list string.
Variable stop_words : string -> bool.

(** The phrase occurrences read off one row. *)
Definition row_phrases (r : SentenceRecord) : list string :=
  kept_phrases stop_words (noun_chunks (PyStr.strip (astype_str (sentence r)))).

(** How many occurrences of the key [k] one row holds. *)
Definition occurrences (k : string) (r : SentenceRecord) : Z :=
  Z.of_nat (length (filter (same_key k) (row_phrases r))).

Definition in_article (r : SentenceRecord) : bool :=
  match row_article_key r with Some _ => true | None => false end.

Lemma kept_phrases_app (a b : list string) :
  kept_phrases stop_words (a ++ b) =
  kept_phrases stop_words a ++ kept_phrases stop_words b.
Proof.
  induction a as [|c a IH]; simpl; [reflexivity|].
  rewrite IH. now destruct (kept_phrase stop_words c).
Qed.

Lemma article_phrases_rows (group : list SentenceRecord) :
  article_phrases noun_chunks stop_words group = flat_map row_phrases group.
Proof.
  unfold article_phrases, article_chunks.
  induction group as [|r group IH]; simpl; [reflexivity|].
  now rewrite kept_phrases_app, IH.
Qed.

Lemma count_in_table (k : string) (df : list SentenceRecord) :
  count_in k (table_dict noun_chunks stop_words df) =
  Z.of_nat (length (filter (same_key k) (table_phrases noun_chunks stop_words df))).
Proof.
  unfold count_in. rewrite table_dict_tally.
  destruct (filter _ _) as [|f0 rest]; [reflexivity | now rewrite tally_cons].
Qed.

(** The count of a key in a table is the sum, over the rows that belong to
    an article, of the occurrences each row holds. *)
Theorem table_count_rows (k : string) (df : list SentenceRecord) :
  count_in k (table_dict noun_chunks stop_words df) =
  sum_counts (map (occurrences k) (filter in_article df)).
Proof.
  rewrite count_in_table. unfold table_phrases.
  rewrite length_flat_map_filter.
  change (filter in_article df) with (filter (keyed row_article_key) df).
  rewrite <- (groupby_sum row_article_key pair_leb (occurrences k) df).
  unfold article_groups. f_equal. apply map_ext. intros g.
  rewrite article_phrases_rows. apply length_flat_map_filter.
Qed.

Theorem table_count_perm (k : string) (df df' : list SentenceRecord) :
  Permutation df df' ->
  count_in k (table_dict noun_chunks stop_words df) =
  count_in k (table_dict noun_chunks stop_words df').
Proof.
  intros HP. rewrite !table_count_rows.
  apply sum_counts_perm, Permutation_map, filter_perm, HP.
Qed.

End RowFacts.

(** ** The Merger's groups *)

Definition lowered (r : MergeRow) : Prop :=
  phrase_lower r = option_map PyStr.lower (m_phrase r).

(** Does an output record stand for the lowercase phrase [k] and the tag [p]? *)
Definition stands_for (k p : string) (r : PhraseRecord) : bool :=
  same_key k (phrase r) && String.eqb (pos r) p.

(** The phrase column of a parsed table. *)
Definition phrase_column (fr : frame) : list (option string) :=
  match fr with
  | WithSource rows => map (fun rs => phrase_cell (fst rs)) rows
  | WithoutSource rows => map phrase_cell rows
  end.

(** The rows a parsed table adds to [combined_df] once it is loaded. *)
Definition frame_rows (f : csv_file) (fr : frame) : list MergeRow :=
  map (fun rs => with_lower (fst rs) (snd rs)) (with_source f fr).

Definition loaded_frames (csv_files : list csv_file) : list (list MergeRow) :=
  flat_map (fun f => match load_file f with Some df => [df] | None => [] end)
           csv_files.

Lemma phrase_column_source (f : csv_file) (fr : frame) :
  map (fun rs => phrase_cell (fst rs)) (with_source f fr) = phrase_column fr.
Proof.
  destruct fr as [rows|rows]; simpl; [reflexivity|].
  rewrite map_map. reflexivity.
Qed.

Lemma load_file_frame (f : csv_file) (fr : frame) :
  read_csv f = Some fr ->
  load_file f = if str_accessor (phrase_column fr)
                then Some (frame_rows f fr) else None.
Proof.
  intros Hread. unfold load_file. rewrite Hread. cbv zeta.
  now rewrite phrase_column_source.
Qed.

(** A column pandas reads as text: some cell holds text, or there is no
    cell at all. *)
Definition holds_text (column : list (option string)) : Prop :=
  column = [] \/ exists s, In (Some s) column.

(** A column pandas reads as numbers: it has cells, none of them text. *)
Definition no_text (column : list (option string)) : Prop :=
  column <> [] /\ forall cell, In cell column -> cell = None.

Lemma str_accessor_text (column : list (option string)) :
  holds_text column -> str_accessor column = true.
Proof.
  intros [->|(s & Hs)]; [reflexivity|].
  destruct column as [|c column]; [destruct Hs|].
  unfold str_accessor. apply existsb_exists. exists (Some s). now split.
Qed.

Lemma str_accessor_no_text (column : list (option string)) :
  no_text column -> str_accessor column = false.
Proof.
  intros [Hne Hnone]. destruct column as [|c column]; [now elim Hne|].
  unfold str_accessor.
  destruct (existsb is_text (c :: column)) eqn:E; [|reflexivity].
  apply existsb_exists in E. destruct E as (cell & Hin & Htext).
  rewrite (Hnone cell Hin) in Htext. discriminate.
Qed.

Lemma load_all_frames (csv_files : list csv_file) :
  fst (load_all csv_files) = loaded_frames csv_files.
Proof.
  induction csv_files as [|f rest IH]; simpl; [reflexivity|].
  destruct (load_all rest) as [dfs log]. simpl in IH.
  destruct (load_file f); simpl; now rewrite IH.
Qed.

Lemma load_file_lowered (f : csv_file) (df : list MergeRow) :
  load_file f = Some df -> Forall lowered df.
Proof.
  unfold load_file. destruct (read_csv f) as [fr|]; [|discriminate].
  cbv zeta. destruct (str_accessor _); [|discriminate]. intros [= <-].
  apply Forall_forall; intros r Hr; apply in_map_iff in Hr;
    destruct Hr as (x & <- & _); reflexivity.
Qed.

Lemma loaded_frames_lowered (csv_files : list csv_file) :
  Forall lowered (concat (loaded_frames csv_files)).
Proof.
  induction csv_files as [|f rest IH]; simpl; [constructor|].
  destruct (load_file f) as [df|] eqn:E; simpl; [|assumption].
  apply Forall_app. split; [now apply (load_file_lowered f) | assumption].
Qed.

Lemma merge_key_Some (r : MergeRow) (k p : string) :
  lowered r -> merge_key r = Some (k, p) ->
  exists ph, m_phrase r = Some ph /\ PyStr.lower ph = k /\ m_pos r = Some p.
Proof.
  unfold lowered, merge_key. intros ->.
  destruct (m_phrase r) as [ph|]; simpl; [|discriminate].
  destruct (m_pos r) as [p'|]; [|discriminate].
  intros [= <- <-]. eauto.
Qed.

(** ** Sums in an int64 *)

(** The values an int64 holds. *)
Definition in_int64 (z : Z) : Prop := - 2 ^ 63 <= z < 2 ^ 63.

Lemma wrap64_small (z : Z) : in_int64 z -> wrap64 z = z.
Proof.
  unfold in_int64, wrap64. intros Hz.
  rewrite Z.mod_small by lia. lia.
Qed.



Lemma wrap64_add_l (a b : Z) : wrap64 (wrap64 a + b) = wrap64 (a + b).
Proof.
  unfold wrap64. f_equal.
  replace ((a + 2 ^ 63) mod 2 ^ 64 - 2 ^ 63 + b + 2 ^ 63)
    with ((a + 2 ^ 63) mod 2 ^ 64 + b) by lia.
  rewrite Zplus_mod_idemp_l. f_equal. lia.
Qed.

Lemma fold_add64 (rest : list Z) (c x : Z) :
  fold_left add64 (x :: rest) c = wrap64 (c + sum_counts (x :: rest)).
Proof.
  revert c x. induction rest as [|y rest IH]; intros c x.
  - simpl. now rewrite Z.add_0_r.
  - change (fold_left add64 (x :: y :: rest) c)
      with (fold_left add64 (y :: rest) (add64 c x)).
    rewrite IH. unfold add64. rewrite wrap64_add_l. f_equal.
    cbn [sum_counts fold_right]. unfold sum_counts. lia.
Qed.

(** The sum a group gets: its only cell, or the total of its cells
    wrapped around. *)
Lemma int64_sum_wrap (cells : list Z) :
  int64_sum cells = match cells with
                    | [c] => c
                    | _ => wrap64 (sum_counts cells)
                    end.
Proof.
  destruct cells as [|c [|x rest]]; [reflexivity | reflexivity |].
  unfold int64_sum. rewrite fold_add64. reflexivity.
Qed.

(** As long as the total fits, the sum is exact. *)
Lemma int64_sum_exact (cells : list Z) :
  in_int64 (sum_counts cells) -> int64_sum cells = sum_counts cells.
Proof.
  intros Hfit. rewrite int64_sum_wrap.
  destruct cells as [|c [|x rest]].
  - reflexivity.
  - simpl. lia.
  - now apply wrap64_small.
Qed.

(** Counts are numbers of occurrences: none is negative, and a part of
    them adds up to no more than the whole. *)
Lemma nonneg_counts_fit {A : Type} (c : A -> Z) (f : A -> bool) (rows : list A) :
  Forall (fun r => 0 <= c r) rows ->
  in_int64 (sum_counts (map c rows)) ->
  in_int64 (sum_counts (map c (filter f rows))).
Proof.
  intros Hpos. unfold in_int64.
  assert (H : 0 <= sum_counts (map c (filter f rows))
              <= sum_counts (map c rows)).
  { induction Hpos as [|r rows Hr Hrows IH]; simpl; [lia|].
    destruct (f r); simpl; unfold sum_counts in *; lia. }
  lia.
Qed.

(** ** Source cells *)

Definition cell_text (cell : option string) : string :=
  match cell with Some s => s | None => EmptyString end.

(** A row that is grouped has a text source. *)
Definition text_sourced (r : MergeRow) : bool :=
  match merge_key r with Some _ => is_text (m_source r) | None => true end.

Definition text_sources (rows : list MergeRow) : bool :=
  forallb text_sourced rows.

(** The record of a group, its source cells being text. *)
Definition group_record (g : (string * string) * list MergeRow) : PhraseRecord :=
  {| phrase := astype_str (first_valid (map m_phrase (snd g)));
     pos := snd (fst g);
     count := int64_sum (map m_count (snd g));
     csv_source := join_sources (map cell_text (map m_source (snd g))) |}.

(** The aggregated frame, when no source cell stands in the way. *)
Definition records (rows : list MergeRow) : list PhraseRecord :=
  map group_record (groupby merge_key pair_leb rows).

Lemma all_text_cells (cells : list (option string)) :
  all_text cells =
  if forallb is_text cells then Some (map cell_text cells) else None.
Proof.
  induction cells as [|[s|] cells IH]; simpl; [reflexivity | | reflexivity].
  rewrite IH. now destruct (forallb is_text cells).
Qed.

Lemma text_cells (cells : list (option string)) :
  forallb is_text cells = true -> map Some (map cell_text cells) = cells.
Proof.
  induction cells as [|[s|] cells IH]; simpl; [reflexivity | | discriminate].
  intros H. now rewrite IH.
Qed.

Lemma merge_group_record (g : (string * string) * list MergeRow) :
  merge_group g =
  if forallb is_text (map m_source (snd g)) then Some (group_record g) else None.
Proof.
  unfold merge_group, join_cells. rewrite all_text_cells.
  now destruct (forallb is_text (map m_source (snd g))).
Qed.

Lemma agg_records (gs : list ((string * string) * list MergeRow)) :
  agg gs =
  if forallb (fun g => forallb is_text (map m_source (snd g))) gs
  then Some (map group_record gs) else None.
Proof.
  induction gs as [|g gs IH]; simpl; [reflexivity|].
  rewrite merge_group_record, IH.
  destruct (forallb is_text (map m_source (snd g))); simpl; [|reflexivity].
  now destruct (forallb _ gs).
Qed.

Lemma groups_text_sources (rows : list MergeRow) :
  forallb (fun g => forallb is_text (map m_source (snd g)))
          (groupby merge_key pair_leb rows)
  = text_sources rows.
Proof.
  apply eq_true_iff_eq. unfold text_sources.
  rewrite !forallb_forall. split.
  - intros Hgroups r Hr. unfold text_sourced.
    destruct (merge_key r) as [key|] eqn:Hkey; [|reflexivity].
    assert (Hg : In (key, filter (has_key merge_key key) rows)
                    (groupby merge_key pair_leb rows)).
    { unfold groupby. apply in_map_iff. exists key. split; [reflexivity|].
      apply (group_keys_In merge_key pair_leb). eauto. }
    specialize (Hgroups _ Hg). cbn [snd] in Hgroups.
    rewrite forallb_forall in Hgroups. apply Hgroups.
    apply in_map. apply filter_In. split; [assumption|].
    now apply has_key_Some.
  - intros Hrows [key g] Hg. cbn [snd]. apply forallb_forall.
    intros c Hc. apply in_map_iff in Hc. destruct Hc as (r & <- & Hr).
    apply groupby_In in Hg. destruct Hg as (-> & _).
    apply filter_In in Hr. destruct Hr as [Hr Hkey].
    apply has_key_Some in Hkey. specialize (Hrows r Hr).
    unfold text_sourced in Hrows. now rewrite Hkey in Hrows.
Qed.

(** [agg] returns the records of the groups, or raises on a source cell. *)
Lemma grouped_records (rows : list MergeRow) :
  grouped rows = if text_sources rows then Some (records rows) else None.
Proof.
  unfold grouped. now rewrite agg_records, groups_text_sources.
Qed.

Lemma group_phrase (rows : list MergeRow) (k p : string) (g : list MergeRow) :
  Forall lowered rows ->
  In ((k, p), g) (groupby merge_key pair_leb rows) ->
  exists r0 rest ph,
    g = r0 :: rest /\ m_phrase r0 = Some ph /\ PyStr.lower ph = k /\
    phrase (group_record ((k, p), g)) = ph.
Proof.
  intros Hlow Hg. apply groupby_In in Hg.
  destruct Hg as (Hfilter & r & Hr & Hkey).
  destruct g as [|r0 rest].
  - exfalso. assert (Hin : In r (filter (has_key merge_key (k, p)) rows)).
    { apply filter_In. split; [assumption | now apply has_key_Some]. }
    rewrite <- Hfilter in Hin. destruct Hin.
  - assert (Hr0 : In r0 (filter (has_key merge_key (k, p)) rows))
      by (rewrite <- Hfilter; now left).
    apply filter_In in Hr0. destruct Hr0 as [Hr0 Hk0].
    apply has_key_Some in Hk0.
    rewrite Forall_forall in Hlow.
    destruct (merge_key_Some (Hlow r0 Hr0) Hk0) as (ph & Hph & Hk & _).
    exists r0, rest, ph. repeat split; try assumption.
    cbn [group_record phrase snd map first_valid]. now rewrite Hph.
Qed.

Lemma keyb_pair (k p k' p' : string) :
  keyb (k', p') (k, p) = String.eqb k' k && String.eqb p' p.
Proof. reflexivity. Qed.

Lemma records_select (k p : string) (rows : list MergeRow) :
  Forall lowered rows ->
  filter (stands_for k p) (records rows) =
  match filter (has_key merge_key (k, p)) rows with
  | [] => []
  | g => [group_record ((k, p), g)]
  end.
Proof.
  intros Hlow. unfold records.
  rewrite (filter_map_select (stands_for k p) (fun g => keyb (fst g) (k, p))).
  - rewrite groupby_select. now destruct (filter _ rows).
  - intros [[k' p'] g] Hg.
    destruct (@group_phrase rows k' p' g Hlow Hg)
      as (r0 & rest & ph & _ & _ & Hk & Hph).
    unfold stands_for, same_key. rewrite Hph, Hk.
    cbn [group_record pos fst snd]. now rewrite keyb_pair.
Qed.

(** ** A sort kind that meets the contract *)

Lemma goes_before_true (r x : PhraseRecord) :
  goes_before r x = true -> count x <= count r.
Proof. unfold goes_before. lia. Qed.

Lemma goes_before_false (r x : PhraseRecord) :
  goes_before r x = false -> count r <= count x.
Proof. unfold goes_before. lia. Qed.

Lemma insert_desc (r : PhraseRecord) (l : list PhraseRecord) :
  StronglySorted (fun a b => count b <= count a) l ->
  StronglySorted (fun a b => count b <= count a)
                 (insert_sorted goes_before r l).
Proof.
  induction 1 as [|x l Hl IH Hx]; simpl.
  - repeat constructor.
  - destruct (goes_before r x) eqn:E.
    + apply goes_before_true in E. constructor; [now constructor|].
      constructor; [assumption|].
      rewrite Forall_forall in *. intros y Hy. specialize (Hx y Hy). lia.
    + apply goes_before_false in E. constructor; [assumption|].
      rewrite Forall_forall in *. intros y Hy.
      apply (Permutation_in _ (Permutation_sym (insert_sorted_perm _ r l))) in Hy.
      destruct Hy as [<-|Hy]; [assumption | now apply Hx].
Qed.

Lemma sort_desc_sorted (l : list PhraseRecord) :
  StronglySorted (fun a b => count b <= count a) (sort_desc l).
Proof.
  unfold sort_desc. induction l; simpl; [constructor | now apply insert_desc].
Qed.

(** The kind the examples are run with. *)
Definition stable_kind : sort_kind :=
  {| sort_values := sort_desc;
     sort_values_perm := sorted_perm goes_before;
     sort_values_desc := sort_desc_sorted |}.

(** ** The Merger's result *)

Definition log_entry (f : csv_file) : log_line :=
  match load_file f with
  | Some df => Loaded (file_name f) (length df)
  | None => ErrorLoading (file_name f)
  end.

Lemma load_all_log (csv_files : list csv_file) :
  snd (load_all csv_files) = map log_entry csv_files.
Proof.
  induction csv_files as [|f rest IH]; simpl; [reflexivity|].
  destruct (load_all rest) as [dfs log]. simpl in IH. unfold log_entry.
  destruct (load_file f); simpl; now rewrite IH.
Qed.

Lemma merge_unfold (kind : sort_kind) (csv_files : list csv_file) :
  merge_csvs_by_phrase kind csv_files =
  match csv_files with
  | [] => ([], inl NoCsvFilesFound)
  | _ => (map log_entry csv_files, merge_frames kind (loaded_frames csv_files))
  end.
Proof.
  unfold merge_csvs_by_phrase. destruct csv_files as [|f rest]; [reflexivity|].
  rewrite <- load_all_frames, <- load_all_log.
  now destruct (load_all (f :: rest)) as [dfs log].
Qed.

Lemma merge_log (kind : sort_kind) (csv_files : list csv_file) :
  fst (merge_csvs_by_phrase kind csv_files) = map log_entry csv_files.
Proof. rewrite merge_unfold. now destruct csv_files. Qed.

Lemma merge_result (kind : sort_kind) (csv_files : list csv_file) :
  csv_files <> [] ->
  snd (merge_csvs_by_phrase kind csv_files)
  = merge_frames kind (loaded_frames csv_files).
Proof.
  intros Hne. rewrite merge_unfold. destruct csv_files; [now elim Hne|].
  reflexivity.
Qed.

(** Once a frame is loaded, the merge returns the sorted records or raises
    on a source cell. *)
Lemma merge_frames_records (kind : sort_kind) (dfs : list (list MergeRow)) :
  dfs <> [] ->
  merge_frames kind dfs =
  if text_sources (concat dfs)
  then inr (sort_values kind (records (concat dfs)))
  else inl JoinTypeError.
Proof.
  intros Hne. unfold merge_frames. destruct dfs as [|df dfs]; [now elim Hne|].
  rewrite grouped_records. now destruct (text_sources _).
Qed.

Lemma loaded_frames_files (csv_files : list csv_file) :
  loaded_frames csv_files <> [] -> csv_files <> [].
Proof. intros Hne E. subst. now apply Hne. Qed.

Lemma merge_ok (kind : sort_kind) (csv_files : list csv_file) :
  loaded_frames csv_files <> [] ->
  text_sources (concat (loaded_frames csv_files)) = true ->
  snd (merge_csvs_by_phrase kind csv_files) =
  inr (sort_values kind (records (concat (loaded_frames csv_files)))).
Proof.
  intros Hne Htext.
  rewrite merge_result by now apply loaded_frames_files.
  rewrite merge_frames_records by assumption. now rewrite Htext.
Qed.

Lemma merge_raises (kind : sort_kind) (csv_files : list csv_file) :
  loaded_frames csv_files <> [] ->
  text_sources (concat (loaded_frames csv_files)) = false ->
  snd (merge_csvs_by_phrase kind csv_files) = inl JoinTypeError.
Proof.
  intros Hne Htext.
  rewrite merge_result by now apply loaded_frames_files.
  rewrite merge_frames_records by assumption. now rewrite Htext.
Qed.

Lemma loaded_frames_app (a b : list csv_file) :
  loaded_frames (a ++ b) = loaded_frames a ++ loaded_frames b.
Proof. unfold loaded_frames. apply flat_map_app. Qed.

Lemma loaded_frames_insert (before after : list csv_file) (f : csv_file) :
  loaded_frames (before ++ f :: after) =
  loaded_frames before
  ++ match load_file f with Some df => [df] | None => [] end
  ++ loaded_frames after.
Proof. now rewrite loaded_frames_app. Qed.

(** ** C9 *)

(** A table on which the [try] block raises: it cannot be read, it has no
    [phrase] column, or its [phrase] column holds no text. *)
Definition unloadable (f : csv_file) : Prop :=
  match read_csv f with
  | None => True
  | Some fr => no_text (phrase_column fr)
  end.

Lemma unloadable_load (f : csv_file) : unloadable f -> load_file f = None.
Proof.
  unfold unloadable. destruct (read_csv f) as [fr|] eqn:Hread.
  - intros Hstr. rewrite (load_file_frame f Hread).
    now rewrite (str_accessor_no_text Hstr).
  - intros _. unfold load_file. now rewrite Hread.
Qed.

Lemma loadable_load (f : csv_file) (fr : frame) :
  read_csv f = Some fr -> holds_text (phrase_column fr) ->
  load_file f = Some (frame_rows f fr).
Proof.
  intros Hread Hstr. rewrite (load_file_frame f Hread).
  now rewrite (str_accessor_text Hstr).
Qed.

Lemma loaded_frames_none (csv_files : list csv_file) :
  (forall f, In f csv_files -> unloadable f) -> loaded_frames csv_files = [].
Proof.
  induction csv_files as [|f rest IH]; intros Hall; simpl; [reflexivity|].
  rewrite (unloadable_load f) by (apply Hall; now left).
  apply IH. intros g Hg. apply Hall. now right.
Qed.

(** C9. The Merger raises when the folder lists no table.  A table that
    cannot be loaded (it does not parse, or its [phrase] column is missing
    or holds no text) is logged as an error and left out: log and result are
    those of the other tables, and the merge raises (the concatenation of no
    frame) when there is no other.  A table that parses and has text in its
    [phrase] column is logged with its row count and its rows are merged
    with those of the other tables: the merge does not fail for want of a
    frame, and whenever a table is returned, every row of it that has a
    phrase and a pos has its record there.  When no table of the folder can
    be loaded, the merge raises instead of returning a table. *)
Theorem C9_merger_failures (kind : sort_kind) (before after : list csv_file)
    (f : csv_file) :
  merge_csvs_by_phrase kind [] = ([], inl NoCsvFilesFound) /\
  (unloadable f ->
   fst (merge_csvs_by_phrase kind (before ++ f :: after))
   = fst (merge_csvs_by_phrase kind before)
     ++ ErrorLoading (file_name f) :: fst (merge_csvs_by_phrase kind after) /\
   snd (merge_csvs_by_phrase kind (before ++ f :: after))
   = match before ++ after with
     | [] => inl NoObjectsToConcatenate
     | rest => snd (merge_csvs_by_phrase kind rest)
     end) /\
  (forall fr,
     read_csv f = Some fr -> holds_text (phrase_column fr) ->
     fst (merge_csvs_by_phrase kind (before ++ f :: after))
     = fst (merge_csvs_by_phrase kind before)
       ++ Loaded (file_name f) (length (with_source f fr))
          :: fst (merge_csvs_by_phrase kind after) /\
     snd (merge_csvs_by_phrase kind (before ++ f :: after))
     = merge_frames kind
         (loaded_frames before ++ frame_rows f fr :: loaded_frames after) /\
     snd (merge_csvs_by_phrase kind (before ++ f :: after))
     <> inl NoObjectsToConcatenate /\
     forall merged_df r k p,
       snd (merge_csvs_by_phrase kind (before ++ f :: after)) = inr merged_df ->
       In r (frame_rows f fr) -> merge_key r = Some (k, p) ->
       exists record, In record merged_df /\ stands_for k p record = true) /\
  (forall csv_files,
     csv_files <> [] -> (forall g, In g csv_files -> unloadable g) ->
     snd (merge_csvs_by_phrase kind csv_files) = inl NoObjectsToConcatenate).
Proof.
  assert (Hfiles : before ++ f :: after <> []) by now destruct before.
  repeat apply conj.
  - reflexivity.
  - intros Hf. apply unloadable_load in Hf. split.
    + rewrite !merge_log, map_app. cbn [map]. unfold log_entry at 2.
      now rewrite Hf.
    + rewrite (merge_result kind Hfiles), loaded_frames_insert, Hf.
      cbn [app]. rewrite <- loaded_frames_app.
      destruct (before ++ after) as [|g rest] eqn:E; [reflexivity|].
      now rewrite merge_result.
  - intros fr Hread Hstr. pose proof (loadable_load f Hread Hstr) as Hf.
    assert (Hloaded : loaded_frames (before ++ f :: after)
                      = loaded_frames before ++ frame_rows f fr :: loaded_frames after).
    { now rewrite loaded_frames_insert, Hf. }
    assert (Hsome : loaded_frames before ++ frame_rows f fr :: loaded_frames after
                    <> []) by now destruct (loaded_frames before).
    rewrite (merge_result kind Hfiles), Hloaded.
    repeat apply conj.
    + rewrite !merge_log, map_app. cbn [map]. unfold log_entry at 2.
      rewrite Hf. unfold frame_rows. now rewrite length_map.
    + reflexivity.
    + rewrite (merge_frames_records kind Hsome).
      now destruct (text_sources _).
    + intros merged_df r k p Hdf Hr Hkey.
      rewrite (merge_frames_records kind Hsome) in Hdf.
      destruct (text_sources _); [|discriminate]. injection Hdf as <-.
      set (rows := concat (loaded_frames before
                           ++ frame_rows f fr :: loaded_frames after)) in *.
      assert (Hlow : Forall lowered rows).
      { unfold rows. rewrite <- Hloaded. apply loaded_frames_lowered. }
      assert (Hrow : In r (filter (has_key merge_key (k, p)) rows)).
      { apply filter_In. split; [|now apply has_key_Some].
        unfold rows. rewrite concat_app. apply in_or_app. right.
        cbn [concat]. apply in_or_app. now left. }
      pose proof (records_select k p Hlow) as Hsel.
      destruct (filter (has_key merge_key (k, p)) rows) as [|r0 g];
        [destruct Hrow|].
      exists (group_record ((k, p), r0 :: g)).
      assert (Hin : In (group_record ((k, p), r0 :: g))
                       (filter (stands_for k p) (records rows)))
        by (rewrite Hsel; now left).
      apply filter_In in Hin. destruct Hin as [Hin Hfor].
      split; [|assumption].
      now apply (Permutation_in _ (sort_values_perm kind (records rows))).
  - intros csv_files Hne Hall. rewrite (merge_result kind Hne).
    now rewrite (loaded_frames_none csv_files Hall).
Qed.

(** ** C6 *)

(** The rows merged under the lowercase phrase [k] and the tag [p]. *)
Definition in_group (k p : string) (r : MergeRow) : bool :=
  match m_phrase r, m_pos r with
  | Some ph, Some q => String.eqb (PyStr.lower ph) k && String.eqb q p
  | _, _ => false
  end.

Lemma in_group_has_key (k p : string) (rows : list MergeRow) :
  Forall lowered rows ->
  filter (has_key merge_key (k, p)) rows = filter (in_group k p) rows.
Proof.
  intros Hlow. apply filter_ext_in. intros r Hr.
  rewrite Forall_forall in Hlow. specialize (Hlow r Hr).
  unfold has_key, merge_key, in_group. rewrite Hlow.
  destruct (m_phrase r) as [ph|]; simpl; [|reflexivity].
  destruct (m_pos r) as [q|]; [|reflexivity].
  rewrite keyb_pair.
  now rewrite (String.eqb_sym k), (String.eqb_sym p).
Qed.

Lemma join_sources_sorted (xs : list string) :
  exists l,
    join_sources xs = PyStr.join ", " l /\
    Sorted (fun a b => String.leb a b = true) l /\
    NoDup l /\
    (forall x, In x l <-> In x xs).
Proof.
  exists (sorted String.leb (unique xs)). repeat split.
  - apply sorted_Sorted, String.leb_total.
  - apply sorted_NoDup, unique_NoDup.
  - rewrite sorted_In, unique_In. tauto.
  - rewrite sorted_In, unique_In. tauto.
Qed.

Lemma group_sources_text (k p : string) (rows : list MergeRow) :
  text_sources rows = true ->
  forallb is_text (map m_source (filter (has_key merge_key (k, p)) rows)) = true.
Proof.
  unfold text_sources. rewrite !forallb_forall. intros Hrows c Hc.
  apply in_map_iff in Hc. destruct Hc as (r & <- & Hr).
  apply filter_In in Hr. destruct Hr as [Hr Hkey].
  apply has_key_Some in Hkey. specialize (Hrows r Hr).
  unfold text_sourced in Hrows. now rewrite Hkey in Hrows.
Qed.

Lemma merged_group (kind : sort_kind) (csv_files : list csv_file) (k p : string) :
  loaded_frames csv_files <> [] ->
  text_sources (concat (loaded_frames csv_files)) = true ->
  exists merged_df,
    snd (merge_csvs_by_phrase kind csv_files) = inr merged_df /\
    match filter (in_group k p) (concat (loaded_frames csv_files)) with
    | [] => filter (stands_for k p) merged_df = []
    | r0 :: g =>
        exists ph sources,
          m_phrase r0 = Some ph /\
          map m_source (r0 :: g) = map Some sources /\
          filter (stands_for k p) merged_df =
          [ {| phrase := ph;
               pos := p;
               count := int64_sum (map m_count (r0 :: g));
               csv_source := join_sources sources |} ]
    end.
Proof.
  intros Hne Htext. eexists. split; [now apply merge_ok|].
  pose proof (loaded_frames_lowered csv_files) as Hlow.
  pose proof (records_select k p Hlow) as Hsel.
  pose proof (group_sources_text k p _ Htext) as Hsrc.
  rewrite (in_group_has_key k p Hlow) in Hsel, Hsrc.
  pose proof (sort_values_perm kind (records (concat (loaded_frames csv_files))))
    as HP.
  destruct (filter (in_group k p) (concat (loaded_frames csv_files)))
    as [|r0 g] eqn:Eg.
  - now apply (filter_perm_nil _ HP).
  - assert (Hr0 : In r0 (filter (in_group k p) (concat (loaded_frames csv_files))))
      by (rewrite Eg; now left).
    apply filter_In in Hr0. destruct Hr0 as [_ Hr0]. unfold in_group in Hr0.
    destruct (m_phrase r0) as [ph|] eqn:Eph; [|discriminate].
    exists ph, (map cell_text (map m_source (r0 :: g))).
    split; [reflexivity|]. split; [symmetry; now apply text_cells|].
    apply (filter_perm_singleton _ HP). rewrite Hsel.
    unfold group_record. cbn [fst snd map first_valid]. now rewrite Eph.
Qed.

(** C6. The Merger's table has, for a lowercase phrase [k] and a tag [p],
    no record when no loaded row has both, and otherwise exactly one: its
    count is the int64 sum over the rows having both (their exact sum as
    long as that fits an int64), its sources are their distinct
    [csv_source] values, sorted and joined by ", ", and its phrase is the
    phrase cell of the first such row, tables taken in folder order and rows
    in table order.  A table read without a [csv_source] column gets the
    file's stem in that column.  The table is returned when some file loads
    and every row that is grouped has text in its source cell; a source cell
    without text in such a row makes the merge raise. *)
Theorem C6_merger_groups (kind : sort_kind) (csv_files : list csv_file) :
  (forall f rows,
     read_csv f = Some (WithoutSource rows) ->
     holds_text (map phrase_cell rows) ->
     load_file f = Some (map (fun r => with_lower r (Some (stem f))) rows)) /\
  (forall f rows,
     read_csv f = Some (WithSource rows) ->
     holds_text (map (fun rs => phrase_cell (fst rs)) rows) ->
     load_file f = Some (map (fun rs => with_lower (fst rs) (snd rs)) rows)) /\
  fst (load_all csv_files) = loaded_frames csv_files /\
  (loaded_frames csv_files <> [] ->
   text_sources (concat (loaded_frames csv_files)) = true ->
   exists merged_df,
     snd (merge_csvs_by_phrase kind csv_files) = inr merged_df /\
     forall k p,
       match filter (in_group k p) (concat (loaded_frames csv_files)) with
       | [] => filter (stands_for k p) merged_df = []
       | r0 :: g =>
           exists ph sources,
             m_phrase r0 = Some ph /\
             map m_source (r0 :: g) = map Some sources /\
             filter (stands_for k p) merged_df =
             [ {| phrase := ph;
                  pos := p;
                  count := int64_sum (map m_count (r0 :: g));
                  csv_source := join_sources sources |} ]
       end) /\
  (loaded_frames csv_files <> [] ->
   text_sources (concat (loaded_frames csv_files)) = false ->
   snd (merge_csvs_by_phrase kind csv_files) = inl JoinTypeError) /\
  (forall cells,
     in_int64 (sum_counts cells) -> int64_sum cells = sum_counts cells) /\
  (forall xs, exists l,
     join_sources xs = PyStr.join ", " l /\
     Sorted (fun a b => String.leb a b = true) l /\
     NoDup l /\
     (forall x, In x l <-> In x xs)).
Proof.
  repeat apply conj.
  - intros f rows Hread Hstr.
    rewrite (loadable_load f Hread Hstr). unfold frame_rows. cbn [with_source].
    now rewrite map_map.
  - intros f rows Hread Hstr. now rewrite (loadable_load f Hread Hstr).
  - apply load_all_frames.
  - intros Hne Htext. eexists. split; [now apply merge_ok|].
    intros k p.
    destruct (merged_group kind csv_files k p Hne Htext) as (df & Hdf & Hg).
    rewrite merge_ok in Hdf by assumption. injection Hdf as <-. exact Hg.
  - apply merge_raises.
  - apply int64_sum_exact.
  - apply join_sources_sorted.
Qed.

(** ** C5 *)

Definition has_phrase (p : string) (r : PhraseRecord) : bool :=
  String.eqb (phrase r) p.

Lemma groupby_rows {K R : Type} `{Hashable K} (key_of : R -> option K)
    (leb : K -> K -> bool) (df : list R) (g : K * list R) (r : R) :
  In g (groupby key_of leb df) -> In r (snd g) -> key_of r = Some (fst g).
Proof.
  destruct g as [k rows]. intros Hg Hr. apply groupby_In in Hg.
  destruct Hg as (-> & _). cbn [snd] in Hr. apply filter_In in Hr.
  now apply has_key_Some.
Qed.

Lemma aggregated_select (kind : sort_kind) (results : list (list PhraseRecord))
    (p : string) :
  filter (has_phrase p) (aggregated kind results) =
  match filter (has_phrase p) (concat results) with
  | [] => []
  | g => [ {| phrase := p;
              pos := NOUN_PHRASE;
              count := sum_counts (map count g);
              csv_source := join_sources (map csv_source g) |} ]
  end.
Proof.
  unfold aggregated.
  set (gs := groupby (fun r => Some (phrase r)) String.leb (concat results)).
  assert (Hsel : filter (has_phrase p) (map combine_group gs) =
                 match filter (has_phrase p) (concat results) with
                 | [] => []
                 | g => [combine_group (p, g)]
                 end).
  { rewrite (filter_map_select (has_phrase p) (fun g => keyb (fst g) p))
      by reflexivity.
    unfold gs. rewrite groupby_select.
    rewrite (filter_ext (has_key (fun r => Some (phrase r)) p) (has_phrase p)).
    - now destruct (filter (has_phrase p) (concat results)).
    - intros r. unfold has_key, has_phrase, keyb. cbn [Hashable_string].
      apply String.eqb_sym. }
  pose proof (sort_values_perm kind (map combine_group gs)) as HP.
  destruct (filter (has_phrase p) (concat results)) as [|r0 g] eqn:E.
  - now apply (filter_perm_nil _ HP).
  - now apply (filter_perm_singleton _ HP).
Qed.

Lemma extractor_combined
    (noun_chunks : string -> list string) (stop_words : string -> bool)
    (kind : sort_kind) (csv_files : list input_table) (o : extractor_output) :
  extractor noun_chunks stop_words kind csv_files = inr o ->
  combined o = match all_results o with
               | [] => None
               | results => Some (aggregated kind results)
               end.
Proof.
  unfold extractor. destruct csv_files as [|t rest]; [discriminate|].
  destruct (process_all _ _ _ _ _ _) as [e|[results stats]]; [discriminate|].
  intros [= <-]. cbn [combined all_results]. now destruct results.
Qed.

(** C5. The Combiner groups on the phrase text as it stands: for a text
    [p], the combined table has no record when no per-table record shows
    [p], and otherwise exactly one, carrying the summed counts and the
    distinct sources, sorted and joined by ", ".  Two per-table records
    whose texts differ, be it only in casing, end up in two records. *)
Theorem C5_combiner_exact_text (kind : sort_kind)
    (results : list (list PhraseRecord)) :
  (forall p,
     filter (has_phrase p) (aggregated kind results) =
     match filter (has_phrase p) (concat results) with
     | [] => []
     | g => [ {| phrase := p;
                 pos := NOUN_PHRASE;
                 count := sum_counts (map count g);
                 csv_source := join_sources (map csv_source g) |} ]
     end) /\
  (forall r1 r2,
     In r1 (concat results) -> In r2 (concat results) ->
     phrase r1 <> phrase r2 ->
     exists a1 a2,
       In a1 (aggregated kind results) /\ In a2 (aggregated kind results) /\
       phrase a1 = phrase r1 /\ phrase a2 = phrase r2 /\ a1 <> a2) /\
  (forall xs, exists l,
     join_sources xs = PyStr.join ", " l /\
     Sorted (fun a b => String.leb a b = true) l /\
     NoDup l /\
     (forall x, In x l <-> In x xs)) /\
  (forall noun_chunks stop_words csv_files o,
     extractor noun_chunks stop_words kind csv_files = inr o ->
     combined o = match all_results o with
                  | [] => None
                  | tables => Some (aggregated kind tables)
                  end).
Proof.
  assert (Hrow : forall r, In r (concat results) ->
            exists a, In a (aggregated kind results) /\ phrase a = phrase r).
  { intros r Hr. pose proof (aggregated_select kind results (phrase r)) as Hsel.
    destruct (filter (has_phrase (phrase r)) (concat results)) as [|r0 g] eqn:E.
    - assert (Hin : In r (filter (has_phrase (phrase r)) (concat results))).
      { apply filter_In. split; [assumption | apply String.eqb_refl]. }
      rewrite E in Hin. destruct Hin.
    - cbv beta iota zeta in Hsel.
      match type of Hsel with _ = ?a :: nil => exists a end.
      split; [|reflexivity].
      eapply proj1. apply filter_In. rewrite Hsel. now left. }
  repeat apply conj.
  - apply aggregated_select.
  - intros r1 r2 H1 H2 Hne.
    destruct (Hrow r1 H1) as (a1 & Ha1 & E1).
    destruct (Hrow r2 H2) as (a2 & Ha2 & E2).
    exists a1, a2. repeat split; try assumption. congruence.
  - apply join_sources_sorted.
  - intros noun_chunks stop_words csv_files o Ho.
    now apply (extractor_combined noun_chunks stop_words kind csv_files).
Qed.

(** ** C3 *)

(** The occurrences a phrase table records under the PhraseKey [k]. *)
Definition key_total (k : string) (table : list PhraseRecord) : Z :=
  sum_counts (map count (filter (fun r => same_key k (phrase r)) table)).

Definition row_has_key (k : string) (r : MergeRow) : bool :=
  match m_phrase r with Some ph => same_key k ph | None => false end.

(** The same for the rows the Merger has loaded. *)
Definition loaded_total (k : string) (rows : list MergeRow) : Z :=
  sum_counts (map m_count (filter (row_has_key k) rows)).

Definition has_pos (r : MergeRow) : bool :=
  match m_pos r with Some _ => true | None => false end.

Lemma sum_filter {A : Type} (p : A -> bool) (c : A -> Z) (l : list A) :
  sum_counts (map c (filter p l)) =
  sum_counts (map (fun x => if p x then c x else 0) l).
Proof.
  induction l as [|x l IH]; simpl; [reflexivity|].
  destruct (p x); simpl; rewrite IH; reflexivity.
Qed.

Lemma key_total_perm (k : string) (a b : list PhraseRecord) :
  Permutation a b -> key_total k a = key_total k b.
Proof.
  intros HP. unfold key_total.
  apply sum_counts_perm, Permutation_map, filter_perm, HP.
Qed.

Lemma sum_map_ext_in {A : Type} (f g : A -> Z) (l : list A) :
  (forall x, In x l -> f x = g x) ->
  sum_counts (map f l) = sum_counts (map g l).
Proof. intros Hfg. f_equal. now apply map_ext_in. Qed.

Lemma sum_zero {A : Type} (l : list A) : sum_counts (map (fun _ => 0) l) = 0.
Proof. induction l; simpl; [reflexivity | assumption]. Qed.

Lemma combiner_conserves (kind : sort_kind) (results : list (list PhraseRecord))
    (k : string) :
  key_total k (aggregated kind results) = key_total k (concat results).
Proof.
  unfold aggregated.
  rewrite <- (key_total_perm k (sort_values_perm kind _)).
  unfold key_total. rewrite !sum_filter, map_map.
  set (f := fun r => if same_key k (phrase r) then count r else 0).
  transitivity (sum_counts (map f (filter (keyed (fun r => Some (phrase r)))
                                          (concat results)))).
  - rewrite <- (groupby_sum (fun r => Some (phrase r)) String.leb f).
    apply sum_map_ext_in. intros g Hg. cbn [combine_group phrase count].
    destruct (same_key k (fst g)) eqn:E.
    + apply sum_map_ext_in. intros r Hr.
      pose proof (groupby_rows _ _ _ _ _ Hg Hr) as [= Hp]. unfold f.
      now rewrite Hp, E.
    + symmetry. rewrite <- (sum_zero (snd g)). apply sum_map_ext_in.
      intros r Hr. pose proof (groupby_rows _ _ _ _ _ Hg Hr) as [= Hp].
      unfold f. now rewrite Hp, E.
  - f_equal. f_equal. clear. induction (concat results) as [|r l IH];
      simpl; [reflexivity | now rewrite IH].
Qed.

Lemma records_conserves (k : string) (rows : list MergeRow) :
  Forall lowered rows ->
  (forall p, in_int64 (sum_counts (map m_count (filter (in_group k p) rows)))) ->
  key_total k (records rows) = loaded_total k (filter has_pos rows).
Proof.
  intros Hlow Hfit. unfold key_total, loaded_total, records.
  rewrite !sum_filter, map_map.
  set (f := fun r => if row_has_key k r then m_count r else 0).
  transitivity (sum_counts (map f (filter (keyed merge_key) rows))).
  - rewrite <- (groupby_sum merge_key pair_leb f).
    apply sum_map_ext_in. intros [[k' p'] g] Hg.
    destruct (@group_phrase rows k' p' g Hlow Hg)
      as (r0 & rest & ph & _ & _ & Hk & Hph).
    rewrite Hph. unfold same_key. rewrite Hk. cbn [snd].
    assert (Hf : forall r, In r g ->
              f r = if String.eqb k' k then m_count r else 0).
    { intros r Hr. pose proof (groupby_rows _ _ _ _ _ Hg Hr) as Hkey.
      apply groupby_In in Hg. destruct Hg as (-> & _).
      apply filter_In in Hr. destruct Hr as [Hr _].
      rewrite Forall_forall in Hlow.
      destruct (merge_key_Some (Hlow r Hr) Hkey) as (ph' & Hph' & <- & _).
      unfold f, row_has_key. now rewrite Hph'. }
    rewrite (sum_map_ext_in f _ g Hf).
    destruct (String.eqb_spec k' k) as [->|Hne].
    + cbn [group_record count snd]. apply int64_sum_exact.
      apply groupby_In in Hg. destruct Hg as (-> & _).
      rewrite (in_group_has_key k p' Hlow). apply Hfit.
    + symmetry. apply sum_zero.
  - rewrite !sum_filter. apply sum_map_ext_in. intros r Hr.
    rewrite Forall_forall in Hlow. specialize (Hlow r Hr).
    unfold keyed, merge_key, has_pos, f, row_has_key. rewrite Hlow.
    destruct (m_phrase r); simpl; [|now destruct (m_pos r)].
    now destruct (m_pos r).
Qed.

Lemma filter_all {A : Type} (p : A -> bool) (l : list A) :
  Forall (fun x => p x = true) l -> filter p l = l.
Proof.
  induction 1 as [|x l Hx Hl IH]; simpl; [reflexivity|].
  now rewrite Hx, IH.
Qed.

(** C3. Count conservation, key by key.  The occurrences the Combiner's
    table records under a PhraseKey are those the per-table outputs record
    under it, in total.  So are those of the Merger's table, for phrase
    tables as the Extractor writes them: every row carries a [pos] cell and
    text in its source cell, and the counts merged into one record add up
    to a number an int64 holds. *)
Theorem C3_count_conservation (kind : sort_kind) :
  (forall (results : list (list PhraseRecord)) (k : string),
     key_total k (aggregated kind results) = key_total k (concat results)) /\
  (forall (csv_files : list csv_file) (k : string),
     loaded_frames csv_files <> [] ->
     Forall (fun r => has_pos r = true) (concat (loaded_frames csv_files)) ->
     text_sources (concat (loaded_frames csv_files)) = true ->
     (forall p, in_int64 (sum_counts (map m_count
                  (filter (in_group k p) (concat (loaded_frames csv_files)))))) ->
     exists merged_df,
       snd (merge_csvs_by_phrase kind csv_files) = inr merged_df /\
       key_total k merged_df = loaded_total k (concat (loaded_frames csv_files))).
Proof.
  split.
  - intros results k. apply combiner_conserves.
  - intros csv_files k Hne Hpos Htext Hfit. eexists.
    split; [now apply merge_ok|].
    rewrite <- (key_total_perm k (sort_values_perm kind _)).
    rewrite records_conserves by (apply loaded_frames_lowered || assumption).
    now rewrite (filter_all _ Hpos).
Qed.

(** ** C2 *)

(** Every entry is filed under the lowercase of its own text. *)
Definition well_keyed (d : phrase_dict) : Prop :=
  Forall (fun it => PyStr.lower (fst (snd it)) = fst it) d.

Lemma set_well_keyed (k o : string) (n : Z) (d : phrase_dict) :
  PyStr.lower o = k -> well_keyed d -> well_keyed (Dict.set k (o, n) d).
Proof.
  intros Ho. induction 1 as [|[k0 v0] d Hk Hd IH]; simpl.
  - repeat constructor. exact Ho.
  - destruct (keyb k0 k); constructor; assumption.
Qed.

Lemma get_well_keyed (k o : string) (n : Z) (d : phrase_dict) :
  well_keyed d -> Dict.get k d = Some (o, n) -> PyStr.lower o = k.
Proof.
  induction 1 as [|[k0 v0] d Hk Hd IH]; simpl; [discriminate|].
  change (keyb k0 k) with (String.eqb k0 k).
  destruct (String.eqb_spec k0 k) as [<-|Hne]; [|exact IH].
  intros [= ->]. exact Hk.
Qed.

Lemma prefer_uppercase_lower (new k old : string) :
  PyStr.lower new = k -> PyStr.lower old = k ->
  PyStr.lower (prefer_uppercase new k old) = k.
Proof. unfold prefer_uppercase. now destruct (_ && _). Qed.

Lemma store_well_keyed (ps : list string) (d : phrase_dict) :
  well_keyed d -> well_keyed (fold_left store ps d).
Proof.
  revert d. induction ps as [|p ps IH]; intros d Hd; simpl; [assumption|].
  apply IH. unfold store.
  destruct (Dict.get (PyStr.lower p) d) as [[o n]|] eqn:E.
  - apply set_well_keyed; [|assumption].
    apply prefer_uppercase_lower; [reflexivity|].
    eapply get_well_keyed; eassumption.
  - now apply set_well_keyed.
Qed.

Lemma add_entry_well_keyed (items d : phrase_dict) :
  well_keyed items -> well_keyed d -> well_keyed (fold_left add_entry items d).
Proof.
  intros Hitems. revert d.
  induction Hitems as [|[k [o n]] items Hk Hitems IH]; intros d Hd; simpl;
    [assumption|].
  apply IH. cbn [fst snd] in Hk.
  destruct (Dict.get k d) as [[oo nn]|] eqn:E.
  - apply set_well_keyed; [|assumption].
    apply prefer_uppercase_lower; [assumption|].
    eapply get_well_keyed; eassumption.
  - now apply set_well_keyed.
Qed.

Lemma table_dict_well_keyed
    (noun_chunks : string -> list string) (stop_words : string -> bool)
    (df : list SentenceRecord) :
  well_keyed (table_dict noun_chunks stop_words df).
Proof.
  rewrite table_dict_items. apply add_entry_well_keyed; [|constructor].
  unfold well_keyed. apply Forall_forall. intros it Hit.
  apply in_flat_map in Hit. destruct Hit as (g & _ & Hit).
  assert (Hd : well_keyed (article_dict noun_chunks stop_words (snd g))).
  { apply store_well_keyed. constructor. }
  unfold well_keyed in Hd. rewrite Forall_forall in Hd. now apply Hd.
Qed.

(** The records a dictionary yields for one key: none, or the one entry. *)
Lemma records_of_key (name k : string) (d : phrase_dict) :
  NoDup (Dict.keys d) -> well_keyed d ->
  filter (fun r => same_key k (phrase r)) (map (to_record name) (Dict.values d)) =
  map (to_record name) (entry_list (Dict.get k d)).
Proof.
  intros Hnd Hwk. rewrite <- (select_key_NoDup k d Hnd).
  clear Hnd. unfold Dict.values.
  induction Hwk as [|[k0 [o n]] d Hk Hd IH]; [reflexivity|].
  cbn [map filter fst snd to_record phrase] in *.
  unfold same_key at 1. rewrite Hk.
  destruct (String.eqb k0 k); cbn [map]; now rewrite IH.
Qed.

Lemma loaded_frames_perm (a b : list csv_file) :
  Permutation a b ->
  Permutation (concat (loaded_frames a)) (concat (loaded_frames b)).
Proof.
  induction 1 as [|f a b HP IH|f f' a|a b c HP1 IH1 HP2 IH2]; simpl.
  - constructor.
  - rewrite !concat_app. now apply Permutation_app_head.
  - rewrite !concat_app, !app_assoc.
    apply Permutation_app_tail, Permutation_app_comm.
  - etransitivity; eassumption.
Qed.

Lemma loaded_frames_perm_nil (a b : list csv_file) :
  Permutation a b -> loaded_frames a <> [] -> loaded_frames b <> [].
Proof.
  intros HP Ha Hb. apply Ha. apply Permutation_nil. rewrite <- Hb.
  symmetry. unfold loaded_frames. now apply Permutation_flat_map.
Qed.

Lemma forallb_perm {A : Type} (f : A -> bool) (l l' : list A) :
  Permutation l l' -> forallb f l = true -> forallb f l' = true.
Proof.
  intros HP. rewrite !forallb_forall. intros Hl x Hx. apply Hl.
  now apply (Permutation_in _ (Permutation_sym HP)).
Qed.

(** ** Tables that carry one tag *)

Lemma row_has_key_in_group (k p : string) (rows : list MergeRow) :
  Forall (fun r => m_pos r = Some p) rows ->
  filter (row_has_key k) rows = filter (in_group k p) rows.
Proof.
  intros Hpos. apply filter_ext_in. intros r Hr.
  rewrite Forall_forall in Hpos. specialize (Hpos r Hr).
  unfold row_has_key, in_group, same_key. rewrite Hpos.
  destruct (m_phrase r); [|reflexivity].
  now rewrite String.eqb_refl, andb_true_r.
Qed.

Lemma records_pos (p : string) (rows : list MergeRow) (record : PhraseRecord) :
  Forall (fun r => m_pos r = Some p) rows ->
  In record (records rows) -> pos record = p.
Proof.
  intros Hpos Hin. unfold records in Hin. apply in_map_iff in Hin.
  destruct Hin as ([[k' p'] g] & <- & Hg). cbn [group_record pos fst snd].
  apply groupby_In in Hg. destruct Hg as (_ & r & Hr & Hkey).
  rewrite Forall_forall in Hpos. specialize (Hpos r Hr).
  unfold merge_key in Hkey. rewrite Hpos in Hkey.
  destruct (phrase_lower r); [|discriminate]. now injection Hkey as _ <-.
Qed.

(** In tables that all carry the tag [p], the rows of a lowercase phrase
    come out as one record. *)
Lemma merged_key (kind : sort_kind) (csv_files : list csv_file) (k p : string) :
  loaded_frames csv_files <> [] ->
  Forall (fun r => m_pos r = Some p) (concat (loaded_frames csv_files)) ->
  text_sources (concat (loaded_frames csv_files)) = true ->
  in_int64 (sum_counts (map m_count
              (filter (row_has_key k) (concat (loaded_frames csv_files))))) ->
  exists merged_df,
    snd (merge_csvs_by_phrase kind csv_files) = inr merged_df /\
    match filter (row_has_key k) (concat (loaded_frames csv_files)) with
    | [] => filter (fun r => same_key k (phrase r)) merged_df = []
    | r0 :: g =>
        exists text sources,
          filter (fun r => same_key k (phrase r)) merged_df =
          [ {| phrase := text;
               pos := p;
               count := sum_counts (map m_count (r0 :: g));
               csv_source := sources |} ]
    end.
Proof.
  intros Hne Hpos Htext Hfit.
  destruct (merged_group kind csv_files k p Hne Htext) as (df & Hdf & Hg).
  exists df. split; [assumption|].
  rewrite (row_has_key_in_group k Hpos) in *.
  assert (Hsame : filter (fun r => same_key k (phrase r)) df
                  = filter (stands_for k p) df).
  { apply filter_ext_in. intros record Hrecord.
    rewrite merge_ok in Hdf by assumption. injection Hdf as <-.
    apply (Permutation_in _ (Permutation_sym (sort_values_perm kind _)))
      in Hrecord.
    unfold stands_for. rewrite (@records_pos p _ record Hpos Hrecord).
    now rewrite String.eqb_refl, andb_true_r. }
  rewrite Hsame.
  destruct (filter (in_group k p) (concat (loaded_frames csv_files)))
    as [|r0 g]; [assumption|].
  destruct Hg as (ph & sources & _ & _ & ->).
  exists ph, (join_sources sources). now rewrite (int64_sum_exact _ Hfit).
Qed.

Section PerTable.
Variable noun_chunks : string -> list string.
Variable stop_words : string -> bool.
Variable kind : sort_kind.

(** The per-table output before it is sorted. *)
Definition table_records (t : input_table) : list PhraseRecord :=
  map (to_record (csv_name t))
      (Dict.values (table_dict noun_chunks stop_words (dropna (table_rows t)))).

Lemma process_csv_ok (t : input_table) :
  missing_cols t = [] ->
  table_dict noun_chunks stop_words (dropna (table_rows t)) <> [] ->
  exists st,
    process_csv noun_chunks stop_words kind t
      = Processed (sort_values kind (table_records t)) st.
Proof.
  intros Hcols Hdict. unfold process_csv, make_csv_df, table_records.
  rewrite Hcols.
  fold (table_dict noun_chunks stop_words (dropna (table_rows t))).
  destruct (table_dict noun_chunks stop_words (dropna (table_rows t)))
    as [|e d] eqn:E; [contradiction|].
  cbn [Dict.values map]. eexists. reflexivity.
Qed.

Lemma table_records_key (t : input_table) (k : string) :
  filter (fun r => same_key k (phrase r)) (table_records t) =
  match filter (same_key k)
               (table_phrases noun_chunks stop_words (dropna (table_rows t))) with
  | [] => []
  | f0 :: rest =>
      [ {| phrase := match first_cased k (f0 :: rest) with
                     | Some f => f
                     | None => f0
                     end;
           pos := NOUN_PHRASE;
           count := Z.of_nat (length (f0 :: rest));
           csv_source := csv_name t |} ]
  end.
Proof.
  unfold table_records.
  rewrite records_of_key
    by (apply table_dict_NoDup || apply table_dict_well_keyed).
  rewrite table_dict_tally.
  destruct (filter (same_key k) _) as [|f0 rest]; [reflexivity|].
  now rewrite tally_cons.
Qed.

End PerTable.

(** C2. One record per PhraseKey.  In a table of the Extractor the
    occurrences sharing a PhraseKey end up in exactly one record, whose
    count is their number (each occurrence counts 1), and the count does not
    depend on the order of the rows.  In the Merger, for phrase tables as
    the Extractor writes them (every row carries the one tag and text in its
    source cell, and the counts of the key add up to a number an int64
    holds), the rows sharing a lowercase phrase end up in exactly one record,
    whose count is the sum of theirs, and the count does not depend on the
    order of the tables. *)
Theorem C2_one_record_per_key
    (noun_chunks : string -> list string) (stop_words : string -> bool)
    (kind : sort_kind) :
  (forall (t : input_table) (k : string),
     missing_cols t = [] ->
     table_dict noun_chunks stop_words (dropna (table_rows t)) <> [] ->
     exists csv_df st,
       process_csv noun_chunks stop_words kind t = Processed csv_df st /\
       match filter (same_key k)
               (table_phrases noun_chunks stop_words (dropna (table_rows t))) with
       | [] => filter (fun r => same_key k (phrase r)) csv_df = []
       | f0 :: rest =>
           exists text,
             filter (fun r => same_key k (phrase r)) csv_df =
             [ mkPhraseRecord text NOUN_PHRASE
                              (Z.of_nat (length (f0 :: rest))) (csv_name t) ]
       end) /\
  (forall (df df' : list SentenceRecord) (k : string),
     Permutation df df' ->
     count_in k (table_dict noun_chunks stop_words df) =
     count_in k (table_dict noun_chunks stop_words df')) /\
  (forall (csv_files : list csv_file) (k p : string),
     loaded_frames csv_files <> [] ->
     Forall (fun r => m_pos r = Some p) (concat (loaded_frames csv_files)) ->
     text_sources (concat (loaded_frames csv_files)) = true ->
     in_int64 (sum_counts (map m_count
                 (filter (row_has_key k) (concat (loaded_frames csv_files))))) ->
     exists merged_df,
       snd (merge_csvs_by_phrase kind csv_files) = inr merged_df /\
       match filter (row_has_key k) (concat (loaded_frames csv_files)) with
       | [] => filter (fun r => same_key k (phrase r)) merged_df = []
       | r0 :: g =>
           exists text sources,
             filter (fun r => same_key k (phrase r)) merged_df =
             [ {| phrase := text;
                  pos := p;
                  count := sum_counts (map m_count (r0 :: g));
                  csv_source := sources |} ]
       end) /\
  (forall (csv_files csv_files' : list csv_file) (k p : string),
     Permutation csv_files csv_files' ->
     loaded_frames csv_files <> [] ->
     Forall (fun r => m_pos r = Some p) (concat (loaded_frames csv_files)) ->
     text_sources (concat (loaded_frames csv_files)) = true ->
     in_int64 (sum_counts (map m_count
                 (filter (row_has_key k) (concat (loaded_frames csv_files))))) ->
     exists merged_df merged_df',
       snd (merge_csvs_by_phrase kind csv_files) = inr merged_df /\
       snd (merge_csvs_by_phrase kind csv_files') = inr merged_df' /\
       key_total k merged_df = key_total k merged_df').
Proof.
  repeat apply conj.
  - intros t k Hcols Hdict.
    destruct (process_csv_ok noun_chunks stop_words kind t Hcols Hdict)
      as (st & Hst).
    do 2 eexists. split; [exact Hst|].
    pose proof (table_records_key noun_chunks stop_words t k) as Hkey.
    pose proof (sort_values_perm kind (table_records noun_chunks stop_words t))
      as HP.
    destruct (filter (same_key k) _) as [|f0 rest].
    + now apply (filter_perm_nil _ HP).
    + eexists. eapply filter_perm_singleton; [exact HP | exact Hkey].
  - intros df df' k. apply table_count_perm.
  - intros csv_files k p. apply (@merged_key kind csv_files k p).
  - intros csv_files csv_files' k p HP Hne Hpos Htext Hfit.
    pose proof (loaded_frames_perm HP) as Hrows.
    pose proof (Permutation_map m_count (filter_perm (row_has_key k) Hrows))
      as Hcounts.
    assert (Hfit' : in_int64 (sum_counts (map m_count
              (filter (row_has_key k) (concat (loaded_frames csv_files')))))).
    { now rewrite <- (sum_counts_perm Hcounts). }
    destruct (@merged_key kind csv_files k p Hne Hpos Htext Hfit)
      as (df & Hdf & Hone).
    destruct (@merged_key kind csv_files' k p
                (loaded_frames_perm_nil HP Hne)
                (Permutation_Forall Hrows Hpos)
                (forallb_perm _ Hrows Htext) Hfit')
      as (df' & Hdf' & Hone').
    exists df, df'. repeat split; try assumption.
    unfold key_total.
    destruct (filter (row_has_key k) (concat (loaded_frames csv_files)))
      as [|r0 g] eqn:E;
      destruct (filter (row_has_key k) (concat (loaded_frames csv_files')))
        as [|r0' g'] eqn:E'.
    + now rewrite Hone, Hone'.
    + apply Permutation_length in Hcounts. discriminate Hcounts.
    + apply Permutation_length in Hcounts. discriminate Hcounts.
    + destruct Hone as (text & sources & ->).
      destruct Hone' as (text' & sources' & ->).
      pose proof (sum_counts_perm Hcounts) as Hsum.
      cbn [map count sum_counts fold_right] in *. lia.
Qed.

(** ** C10 *)

Lemma present_keys_app {K R : Type} (key_of : R -> option K) (a b : list R) :
  present_keys key_of (a ++ b) = present_keys key_of a ++ present_keys key_of b.
Proof.
  induction a as [|r a IH]; simpl; [reflexivity|].
  destruct (key_of r); simpl; now rewrite IH.
Qed.

(** A row without a key changes nothing to the groups. *)
Lemma groupby_skip {K R : Type} `{Hashable K} (key_of : R -> option K)
    (leb : K -> K -> bool) (a b : list R) (r : R) :
  key_of r = None ->
  groupby key_of leb (a ++ r :: b) = groupby key_of leb (a ++ b).
Proof.
  intros Hr. unfold groupby.
  rewrite !present_keys_app. cbn [present_keys]. rewrite Hr.
  apply map_ext. intros k. f_equal.
  rewrite !filter_app. cbn [filter]. unfold has_key at 2. now rewrite Hr.
Qed.

Lemma dropna_insert (a b : list SentenceRecord) (r : SentenceRecord) :
  dropna (a ++ r :: b) =
  dropna a ++ (if has_sentence r then [r] else []) ++ dropna b.
Proof.
  unfold dropna. rewrite filter_app. cbn [filter].
  now destruct (has_sentence r).
Qed.

(** The statistics of a table, its sentence count apart. *)
Definition besides_sentences (st : table_stats) : table_stats :=
  {| st_csv_name := st_csv_name st;
     total_sentences := 0;
     total_articles := total_articles st;
     unique_noun_phrases := unique_noun_phrases st;
     total_phrase_occurrences := total_phrase_occurrences st |}.

(** Two outcomes that differ at most in the sentence count. *)
Definition same_phrases (extra : Z) (o o' : csv_outcome) : Prop :=
  match o, o' with
  | Skipped m, Skipped m' => m = m'
  | Raised e, Raised e' => e = e'
  | Processed df st, Processed df' st' =>
      df = df' /\
      besides_sentences st = besides_sentences st' /\
      total_sentences st = total_sentences st' + extra
  | _, _ => False
  end.

Definition same_run (o o' : extract_error + extractor_output) : Prop :=
  match o, o' with
  | inl e, inl e' => e = e'
  | inr out, inr out' =>
      all_results out = all_results out' /\
      combined out = combined out' /\
      map besides_sentences (summary out) = map besides_sentences (summary out')
  | _, _ => False
  end.

Section NullKey.
Variable noun_chunks : string -> list string.
Variable stop_words : string -> bool.
Variable kind : sort_kind.

Definition alike (t t' : input_table) : Prop :=
  exists extra,
    same_phrases extra (process_csv noun_chunks stop_words kind t)
                       (process_csv noun_chunks stop_words kind t').

Lemma alike_refl (t : input_table) : alike t t.
Proof.
  exists 0. unfold same_phrases.
  destruct (process_csv noun_chunks stop_words kind t); auto.
  repeat split. lia.
Qed.

Lemma process_all_alike (fs fs' : list input_table) :
  Forall2 alike fs fs' ->
  forall results stats stats',
    map besides_sentences stats = map besides_sentences stats' ->
    match process_all noun_chunks stop_words kind fs results stats,
          process_all noun_chunks stop_words kind fs' results stats' with
    | inl e, inl e' => e = e'
    | inr (rs, ss), inr (rs', ss') =>
        rs = rs' /\ map besides_sentences ss = map besides_sentences ss'
    | _, _ => False
    end.
Proof.
  induction 1 as [|t t' fs fs' (extra & Ht) Hfs IH]; intros results stats stats' Hs.
  - simpl. auto.
  - cbn [process_all]. unfold same_phrases in Ht.
    destruct (process_csv noun_chunks stop_words kind t) as [m|e|df st];
      destruct (process_csv noun_chunks stop_words kind t') as [m'|e'|df' st'];
      try contradiction.
    + now apply IH.
    + assumption.
    + destruct Ht as (<- & Hst & _). apply IH.
      rewrite !map_app. cbn [map]. now rewrite Hs, Hst.
Qed.

Lemma null_key_alike (name : string) (cols : list string)
    (a b : list SentenceRecord) (r : SentenceRecord) :
  row_article_key r = None ->
  same_phrases (if has_sentence r then 1 else 0)
    (process_csv noun_chunks stop_words kind (mkInputTable name cols (a ++ r :: b)))
    (process_csv noun_chunks stop_words kind (mkInputTable name cols (a ++ b))).
Proof.
  intros Hr. unfold process_csv, missing_cols. cbn [columns table_rows csv_name].
  destruct (filter _ [TEXT_COLUMN; TITLE_COLUMN; DATE_COLUMN]) as [|c cs];
    [|reflexivity].
  assert (Hgroups : article_groups (dropna (a ++ r :: b))
                    = article_groups (dropna (a ++ b))).
  { unfold article_groups. rewrite dropna_insert.
    destruct (has_sentence r); cbn [app].
    - unfold dropna at 3. rewrite filter_app. now apply groupby_skip.
    - unfold dropna at 3. now rewrite filter_app. }
  unfold article_noun_phrases. rewrite Hgroups.
  destruct (make_csv_df _ _ _) as [e|csv_df]; [reflexivity|].
  unfold same_phrases, besides_sentences.
  cbn [st_csv_name total_sentences total_articles unique_noun_phrases
       total_phrase_occurrences].
  repeat split.
  rewrite dropna_insert, !length_app. unfold dropna.
  rewrite filter_app, length_app.
  destruct (has_sentence r); cbn [length]; lia.
Qed.

End NullKey.

(** C10, as the code has it.  A row whose title or date cell is null
    belongs to no article group, with or without sentence text: the article
    groups, the per-article dictionaries, the per-table phrase table, the
    combined phrase table and the article count are those of the table
    without the row.  Of the summary only the sentence count can tell the row:
    a row with sentence text is still counted there. *)
Theorem C10_null_title_or_date
    (noun_chunks : string -> list string) (stop_words : string -> bool)
    (kind : sort_kind) (name : string) (cols : list string)
    (a b : list SentenceRecord) (r : SentenceRecord) :
  title r = None \/ date r = None ->
  let t := mkInputTable name cols (a ++ r :: b) in
  let t' := mkInputTable name cols (a ++ b) in
  article_groups (dropna (table_rows t)) = article_groups (dropna (table_rows t')) /\
  article_noun_phrases noun_chunks stop_words (dropna (table_rows t))
    = article_noun_phrases noun_chunks stop_words (dropna (table_rows t')) /\
  same_phrases (if has_sentence r then 1 else 0)
    (process_csv noun_chunks stop_words kind t)
    (process_csv noun_chunks stop_words kind t') /\
  (forall before after,
     same_run (extractor noun_chunks stop_words kind (before ++ t :: after))
              (extractor noun_chunks stop_words kind (before ++ t' :: after))).
Proof.
  intros Hnull t t'.
  assert (Hr : row_article_key r = None).
  { unfold row_article_key. destruct Hnull as [-> | ->];
      [reflexivity | now destruct (title r)]. }
  assert (Hgroups : article_groups (dropna (table_rows t))
                    = article_groups (dropna (table_rows t'))).
  { unfold t, t', article_groups. cbn [table_rows]. rewrite dropna_insert.
    destruct (has_sentence r); cbn [app].
    - unfold dropna at 3. rewrite filter_app. now apply groupby_skip.
    - unfold dropna at 3. now rewrite filter_app. }
  pose proof (null_key_alike noun_chunks stop_words kind name cols a b r Hr)
    as Halike.
  repeat apply conj.
  - exact Hgroups.
  - unfold article_noun_phrases. now rewrite Hgroups.
  - exact Halike.
  - intros before after. unfold same_run, extractor.
    assert (Hall : Forall2 (alike noun_chunks stop_words kind)
                     (before ++ t :: after) (before ++ t' :: after)).
    { apply Forall2_app; [|constructor; [eexists; exact Halike|]].
      - induction before; constructor; [apply alike_refl | assumption].
      - induction after; constructor; [apply alike_refl | assumption]. }
    pose proof (process_all_alike Hall [] [] [] eq_refl) as Hrun.
    destruct before; cbn [app];
      (destruct (process_all _ _ _ _ _ _) as [e|[rs ss]];
       destruct (process_all _ _ _ _ _ _) as [e'|[rs' ss']];
       try contradiction; [assumption|];
       destruct Hrun as [<- Hss]; cbn [all_results combined summary];
       now repeat split).
Qed.

(** * Further properties of the two scripts *)

(** ** Words of a phrase *)

Fixpoint no_space (w : string) : bool :=
  match w with
  | EmptyString => true
  | String c w' => negb (PyStr.is_space c) && no_space w'
  end.

(** A word as [split] yields them: not empty, no whitespace inside. *)
Definition is_word (w : string) : Prop :=
  w <> EmptyString /\ no_space w = true.

Lemma split_go_word (w s : string) :
  no_space w = true ->
  PyStr.split_go (w ++ s)%string =
  ((w ++ fst (PyStr.split_go s))%string, snd (PyStr.split_go s)).
Proof.
  induction w as [|c w IH]; simpl; intros Hw.
  - now destruct (PyStr.split_go s).
  - apply andb_true_iff in Hw. destruct Hw as [Hc Hw].
    rewrite (IH Hw). apply negb_true_iff in Hc. now rewrite Hc.
Qed.

Lemma append_empty_r (w : string) : (w ++ "")%string = w.
Proof. induction w as [|c w IH]; simpl; [reflexivity | now rewrite IH]. Qed.

Lemma push_word (w : string) (ws : list string) :
  w <> EmptyString -> PyStr.push w ws = w :: ws.
Proof. destruct w; [contradiction | reflexivity]. Qed.

(** [" ".join(ws).split() == ws] for a list of words. *)
Lemma split_join (ws : list string) :
  Forall is_word ws -> PyStr.split (PyStr.join " " ws) = ws.
Proof.
  induction 1 as [|w ws [Hne Hw] Hws IH]; [reflexivity|].
  destruct ws as [|w' ws].
  - simpl. unfold PyStr.split.
    rewrite <- (append_empty_r w) at 1. rewrite (split_go_word w "" Hw).
    simpl. rewrite append_empty_r. now apply push_word.
  - change (PyStr.join " " (w :: w' :: ws))
      with (w ++ String " " (PyStr.join " " (w' :: ws)))%string.
    unfold PyStr.split in *. rewrite (split_go_word w _ Hw).
    cbn [PyStr.split_go].
    destruct (PyStr.split_go (PyStr.join " " (w' :: ws))) as [w1 ws1].
    change (PyStr.is_space " ") with true. cbn [fst snd].
    rewrite append_empty_r, IH. now apply push_word.
Qed.

Lemma split_go_words (s : string) :
  no_space (fst (PyStr.split_go s)) = true /\
  Forall is_word (snd (PyStr.split_go s)).
Proof.
  induction s as [|c s [Hw Hws]]; simpl; [split; [reflexivity | constructor]|].
  destruct (PyStr.split_go s) as [w ws]. cbn [fst snd] in *.
  destruct (PyStr.is_space c) eqn:Hc; cbn [fst snd].
  - split; [reflexivity|]. destruct w; simpl; [assumption|].
    constructor; [split; [discriminate | assumption] | assumption].
  - split; [|assumption]. simpl. now rewrite Hc.
Qed.

Lemma split_words (s : string) : Forall is_word (PyStr.split s).
Proof.
  unfold PyStr.split. destruct (split_go_words s) as [Hw Hws].
  destruct (PyStr.split_go s) as [w ws]. cbn [fst snd] in *.
  destruct w; simpl; [assumption|].
  constructor; [split; [discriminate | assumption] | assumption].
Qed.

Lemma pop_stopwords_words (stop_words : string -> bool) (ws : list string) :
  Forall is_word ws -> Forall is_word (pop_stopwords stop_words ws).
Proof.
  induction 1 as [|w ws Hw Hws IH]; simpl; [constructor|].
  destruct (stop_words (PyStr.lower w)); [assumption | now constructor].
Qed.

Lemma pop_stopwords_idem (stop_words : string -> bool) (ws : list string) :
  pop_stopwords stop_words (pop_stopwords stop_words ws)
  = pop_stopwords stop_words ws.
Proof.
  induction ws as [|w ws IH]; simpl; [reflexivity|].
  destruct (stop_words (PyStr.lower w)) eqn:E; [assumption|].
  simpl. now rewrite E.
Qed.

(** X1. Stripping leading stop words twice is stripping them once: the
    stripped phrase splits back into the words that were kept, its first
    word is not a stop word, and a second pass returns it unchanged. *)
Theorem X1_strip_leading_stopwords_idempotent
    (stop_words : string -> bool) (phrase : string) :
  let stripped := strip_leading_stopwords stop_words phrase in
  PyStr.split stripped = pop_stopwords stop_words (PyStr.split phrase) /\
  (forall w, hd_error (PyStr.split stripped) = Some w ->
             stop_words (PyStr.lower w) = false) /\
  strip_leading_stopwords stop_words stripped = stripped.
Proof.
  cbv zeta. unfold strip_leading_stopwords.
  assert (Hsplit : PyStr.split (PyStr.join " "
                     (pop_stopwords stop_words (PyStr.split phrase)))
                   = pop_stopwords stop_words (PyStr.split phrase)).
  { apply split_join, pop_stopwords_words, split_words. }
  rewrite Hsplit. clear Hsplit. repeat split.
  - intros w Hw. induction (PyStr.split phrase) as [|w0 ws IH]; simpl in Hw;
      [discriminate|].
    destruct (stop_words (PyStr.lower w0)) eqn:E; [now apply IH|].
    simpl in Hw. now injection Hw as <-.
  - now rewrite pop_stopwords_idem.
Qed.

(** ** What a per-table output holds *)

Lemma kept_phrase_nonempty (stop_words : string -> bool) (c p : string) :
  kept_phrase stop_words c = Some p -> p <> EmptyString.
Proof.
  unfold kept_phrase. destruct (PyStr.falsy (PyStr.strip c)); [discriminate|].
  destruct (strip_leading_stopwords stop_words (PyStr.strip c)) eqn:E;
    simpl; [discriminate|].
  intros [= <-]. discriminate.
Qed.

Lemma kept_phrases_nonempty (stop_words : string -> bool) (chunks : list string)
    (p : string) :
  In p (kept_phrases stop_words chunks) -> p <> EmptyString.
Proof.
  induction chunks as [|c cs IH]; simpl; [tauto|].
  destruct (kept_phrase stop_words c) as [q|] eqn:E; [|exact IH].
  intros [<-|Hp]; [now apply (kept_phrase_nonempty stop_words c) | now apply IH].
Qed.

Lemma get_In {K V : Type} `{Hashable K} (k : K) (v : V) (d : Dict.dict K V) :
  NoDup (Dict.keys d) -> In (k, v) d -> Dict.get k d = Some v.
Proof.
  induction d as [|[k0 v0] d IH]; simpl; [tauto|].
  intros Hnd Hin. inversion Hnd as [|? ? Hk0 Hd]; subst.
  destruct Hin as [[= -> ->]|Hin]; [now rewrite keyb_refl|].
  destruct (keyb_spec k0 k) as [->|Hne]; [|now apply IH].
  exfalso. apply Hk0. unfold Dict.keys. now apply (in_map fst) in Hin.
Qed.

Lemma first_cased_In (k f : string) (forms : list string) :
  first_cased k forms = Some f -> In f forms.
Proof. intros Hf. now apply find_some in Hf. Qed.

Section TableInvariants.
Variable noun_chunks : string -> list string.
Variable stop_words : string -> bool.

Lemma table_phrases_nonempty (df : list SentenceRecord) (p : string) :
  In p (table_phrases noun_chunks stop_words df) -> p <> EmptyString.
Proof.
  unfold table_phrases. rewrite in_flat_map. intros (g & _ & Hp).
  now apply kept_phrases_nonempty in Hp.
Qed.

(** Each entry of a table's dictionary: the key is the lowercase of the
    text, the text is one of the occurrences counted under the key, the
    count is their number. *)
Lemma table_dict_entry (df : list SentenceRecord) (k o : string) (n : Z) :
  In (k, (o, n)) (table_dict noun_chunks stop_words df) ->
  let forms := filter (same_key k) (table_phrases noun_chunks stop_words df) in
  PyStr.lower o = k /\ In o forms /\ n = Z.of_nat (length forms) /\ 1 <= n.
Proof.
  intros Hin forms.
  pose proof (get_In k (o, n) _ (table_dict_NoDup noun_chunks stop_words df) Hin)
    as Hget.
  rewrite table_dict_tally in Hget. fold forms in Hget.
  assert (Ho : In o forms /\ n = Z.of_nat (length forms) /\ 1 <= n).
  { destruct forms as [|f0 rest]; [discriminate|].
    rewrite tally_cons in Hget.
    remember (first_cased k (f0 :: rest)) as fc eqn:E.
    remember (Z.of_nat (length (f0 :: rest))) as m eqn:Em.
    injection Hget as Ho Hn. subst o n.
    split; [|split; [reflexivity | subst m; cbn [length]; lia]].
    destruct fc as [f|]; [|now left].
    eapply first_cased_In. symmetry. exact E. }
  split; [|exact Ho]. destruct Ho as (Ho & _).
  apply filter_In in Ho. destruct Ho as [_ Ho]. unfold same_key in Ho.
  now apply String.eqb_eq in Ho.
Qed.

Lemma table_dict_nil (df : list SentenceRecord) :
  table_dict noun_chunks stop_words df = [] <->
  table_phrases noun_chunks stop_words df = [].
Proof.
  split; intros Hnil.
  - destruct (table_phrases noun_chunks stop_words df) as [|p ps] eqn:E;
      [reflexivity|].
    pose proof (table_dict_tally noun_chunks stop_words (PyStr.lower p) df)
      as Hget.
    rewrite Hnil, E in Hget. cbn [filter] in Hget. unfold same_key at 1 in Hget.
    rewrite String.eqb_refl in Hget. rewrite tally_cons in Hget. discriminate.
  - destruct (table_dict noun_chunks stop_words df) as [|[k v] d] eqn:E;
      [reflexivity|].
    pose proof (table_dict_tally noun_chunks stop_words k df) as Hget.
    rewrite E, Hnil in Hget. cbn [Dict.get filter] in Hget.
    rewrite keyb_refl in Hget. discriminate.
Qed.

End TableInvariants.

(** X2. Every record of a per-table output carries the constant tag and
    the table's name, a text that is not empty and is one of the phrase
    occurrences of the table, and a count of at least 1 equal to the number
    of occurrences sharing the record's lowercase text; no two records share
    a lowercase text. *)
Theorem X2_per_table_records
    (noun_chunks : string -> list string) (stop_words : string -> bool)
    (kind : sort_kind) (t : input_table)
    (csv_df : list PhraseRecord) (st : table_stats) :
  process_csv noun_chunks stop_words kind t = Processed csv_df st ->
  let phrases := table_phrases noun_chunks stop_words (dropna (table_rows t)) in
  (forall r, In r csv_df ->
     pos r = NOUN_PHRASE /\
     csv_source r = csv_name t /\
     phrase r <> EmptyString /\
     In (phrase r) phrases /\
     count r = Z.of_nat (length (filter (same_key (PyStr.lower (phrase r))) phrases)) /\
     1 <= count r) /\
  NoDup (map (fun r => PyStr.lower (phrase r)) csv_df).
Proof.
  intros Hrun phrases.
  set (d := table_dict noun_chunks stop_words (dropna (table_rows t))).
  assert (HP : Permutation (map (to_record (csv_name t)) (Dict.values d)) csv_df).
  { unfold process_csv, make_csv_df in Hrun.
    destruct (missing_cols t); [|discriminate].
    fold (table_dict noun_chunks stop_words (dropna (table_rows t))) in Hrun.
    fold d in Hrun. destruct (Dict.values d) eqn:Ev; [discriminate|].
    injection Hrun as <- _. apply sort_values_perm. }
  split.
  - intros r Hr. apply (Permutation_in _ (Permutation_sym HP)) in Hr.
    apply in_map_iff in Hr. destruct Hr as ([o n] & <- & Hv).
    unfold Dict.values in Hv. apply in_map_iff in Hv.
    destruct Hv as ([k [o' n']] & [= -> ->] & Hin).
    destruct (table_dict_entry noun_chunks stop_words _ _ _ _ Hin)
      as (Hk & Ho & Hn & Hpos).
    cbn [to_record phrase pos count csv_source fst snd]. rewrite Hk.
    apply filter_In in Ho. destruct Ho as [Ho _].
    repeat split; try assumption.
    now apply (table_phrases_nonempty noun_chunks stop_words
                 (dropna (table_rows t))).
  - apply (Permutation_NoDup (Permutation_map _ HP)).
    rewrite map_map. unfold Dict.values. rewrite map_map.
    pose proof (table_dict_NoDup noun_chunks stop_words (dropna (table_rows t)))
      as Hnd.
    pose proof (table_dict_well_keyed noun_chunks stop_words
                  (dropna (table_rows t))) as Hwk.
    fold d in Hnd, Hwk. unfold Dict.keys in Hnd.
    rewrite (map_ext_in _ fst); [exact Hnd|].
    intros it Hit. unfold well_keyed in Hwk. rewrite Forall_forall in Hwk.
    cbn [to_record phrase]. now apply Hwk.
Qed.

(** ** The statistics of a table *)

Definition dict_total (d : phrase_dict) : Z :=
  sum_counts (map (fun it => snd (snd it)) d).

Lemma dict_total_set (k o : string) (n : Z) (d : phrase_dict) :
  dict_total (Dict.set k (o, n) d) = dict_total d + n - count_in k d.
Proof.
  unfold dict_total, count_in.
  induction d as [|[k0 [o0 n0]] d IH]; simpl; [lia|].
  destruct (keyb k0 k); simpl; [lia|]. unfold sum_counts in *. lia.
Qed.

Lemma dict_total_store (d : phrase_dict) (p : string) :
  dict_total (store d p) = dict_total d + 1.
Proof.
  unfold store.
  destruct (Dict.get (PyStr.lower p) d) as [[o n]|] eqn:E;
    rewrite dict_total_set; unfold count_in; rewrite E; lia.
Qed.

Lemma dict_total_add_entry (acc : phrase_dict) (k o : string) (n : Z) :
  dict_total (add_entry acc (k, (o, n))) = dict_total acc + n.
Proof.
  unfold add_entry.
  destruct (Dict.get k acc) as [[oo nn]|] eqn:E;
    rewrite dict_total_set; unfold count_in; rewrite E; lia.
Qed.

Lemma dict_total_fold_store (ps : list string) (d : phrase_dict) :
  dict_total (fold_left store ps d) = dict_total d + Z.of_nat (length ps).
Proof.
  revert d. induction ps as [|p ps IH]; intros d; simpl fold_left; [simpl; lia|].
  rewrite IH, dict_total_store. cbn [length]. lia.
Qed.

Lemma dict_total_fold_add (items acc : phrase_dict) :
  dict_total (fold_left add_entry items acc) = dict_total acc + dict_total items.
Proof.
  revert acc. induction items as [|[k [o n]] items IH]; intros acc.
  - simpl. unfold dict_total at 3. simpl. lia.
  - cbn [fold_left]. rewrite IH, dict_total_add_entry.
    unfold dict_total at 4. cbn [map snd sum_counts fold_right].
    unfold dict_total, sum_counts. lia.
Qed.

Section TableStats.
Variable noun_chunks : string -> list string.
Variable stop_words : string -> bool.

Lemma table_dict_total (df : list SentenceRecord) :
  dict_total (table_dict noun_chunks stop_words df) =
  Z.of_nat (length (table_phrases noun_chunks stop_words df)).
Proof.
  rewrite table_dict_items, dict_total_fold_add. unfold table_phrases.
  unfold dict_total at 1. simpl.
  induction (article_groups df) as [|g gs IH]; [reflexivity|].
  cbn [flat_map]. rewrite length_app, Nat2Z.inj_add, <- IH.
  unfold dict_total. rewrite map_app, sum_counts_app. f_equal.
  fold (dict_total (article_dict noun_chunks stop_words (snd g))).
  unfold article_dict. rewrite dict_total_fold_store.
  unfold dict_total. simpl. reflexivity.
Qed.

Lemma table_dict_keys (df : list SentenceRecord) (k : string) :
  In k (Dict.keys (table_dict noun_chunks stop_words df)) <->
  In k (map PyStr.lower (table_phrases noun_chunks stop_words df)).
Proof.
  rewrite in_map_iff. split.
  - intros Hk. unfold Dict.keys in Hk. apply in_map_iff in Hk.
    destruct Hk as ([k' [o n]] & <- & Hin).
    destruct (table_dict_entry noun_chunks stop_words _ _ _ _ Hin)
      as (Hlow & Ho & _).
    apply filter_In in Ho. destruct Ho as [Ho _]. eauto.
  - intros (p & <- & Hp).
    destruct (Dict.get (PyStr.lower p) (table_dict noun_chunks stop_words df))
      eqn:E.
    + destruct (in_dec string_dec (PyStr.lower p)
                  (Dict.keys (table_dict noun_chunks stop_words df)))
        as [Hin|Hout]; [assumption|].
      apply get_None_keys in Hout. congruence.
    + rewrite table_dict_tally in E.
      assert (Hf : In p (filter (same_key (PyStr.lower p))
                           (table_phrases noun_chunks stop_words df))).
      { apply filter_In. split; [assumption | apply String.eqb_refl]. }
      destruct (filter _ _) as [|f0 rest]; [destruct Hf|].
      rewrite tally_cons in E. discriminate.
Qed.

End TableStats.

(** X3. The statistics of a processed table: the sentence count is the
    number of rows with sentence text, the article count the number of
    distinct (title, date) pairs among them, the unique-phrase count the
    number of distinct lowercase forms among the phrase occurrences, and the
    total is the number of phrase occurrences, each counted once. *)
Theorem X3_table_statistics
    (noun_chunks : string -> list string) (stop_words : string -> bool)
    (kind : sort_kind) (t : input_table)
    (csv_df : list PhraseRecord) (st : table_stats) :
  process_csv noun_chunks stop_words kind t = Processed csv_df st ->
  let df := dropna (table_rows t) in
  let phrases := table_phrases noun_chunks stop_words df in
  st_csv_name st = csv_name t /\
  total_sentences st = Z.of_nat (length (filter has_sentence (table_rows t))) /\
  total_articles st
    = Z.of_nat (length (unique (present_keys row_article_key df))) /\
  unique_noun_phrases st
    = Z.of_nat (length (unique (map PyStr.lower phrases))) /\
  total_phrase_occurrences st = Z.of_nat (length phrases) /\
  sum_counts (map count csv_df) = Z.of_nat (length phrases).
Proof.
  intros Hrun df phrases.
  set (d := table_dict noun_chunks stop_words df).
  unfold process_csv, make_csv_df in Hrun.
  destruct (missing_cols t); [|discriminate].
  fold df in Hrun.
  fold (table_dict noun_chunks stop_words df) in Hrun. fold d in Hrun.
  destruct (Dict.values d) as [|v vs] eqn:Ev; [discriminate|].
  rewrite <- Ev in Hrun. injection Hrun as <- <-.
  cbn [st_csv_name total_sentences total_articles unique_noun_phrases
       total_phrase_occurrences].
  pose proof (sort_values_perm kind (map (to_record (csv_name t)) (Dict.values d)))
    as HP.
  assert (Hsum : sum_counts (map count (sort_values kind
                   (map (to_record (csv_name t)) (Dict.values d))))
                 = Z.of_nat (length phrases)).
  { rewrite <- (sum_counts_perm (Permutation_map count HP)).
    rewrite map_map. unfold Dict.values. rewrite map_map.
    cbn [to_record count]. apply table_dict_total. }
  repeat split; try assumption.
  - unfold article_groups, groupby. rewrite length_map.
    f_equal. symmetry. apply Permutation_length, sorted_perm.
  - f_equal. rewrite <- (Permutation_length HP). rewrite length_map.
    unfold Dict.values. rewrite length_map.
    rewrite <- (length_map fst d). fold (Dict.keys d).
    apply Permutation_length, NoDup_Permutation.
    + apply table_dict_NoDup.
    + apply unique_NoDup.
    + intros k. rewrite unique_In. apply table_dict_keys.
Qed.

(** ** Tables that raise, tables that are skipped *)

Section RunFacts.
Variable noun_chunks : string -> list string.
Variable stop_words : string -> bool.
Variable kind : sort_kind.

Definition complete (t : input_table) : bool :=
  match missing_cols t with [] => true | _ => false end.

Lemma process_csv_Processed (t : input_table) (csv_df : list PhraseRecord)
    (st : table_stats) :
  process_csv noun_chunks stop_words kind t = Processed csv_df st ->
  complete t = true /\
  csv_df = sort_values kind (table_records noun_chunks stop_words t) /\
  st_csv_name st = csv_name t.
Proof.
  unfold process_csv, make_csv_df, complete, table_records, table_dict.
  destruct (missing_cols t); [|discriminate].
  destruct (Dict.values _) as [|v vs]; [discriminate|].
  intros [= <- <-]. repeat split.
Qed.

Lemma process_csv_Skipped (t : input_table) (m : list string) :
  process_csv noun_chunks stop_words kind t = Skipped m ->
  complete t = false.
Proof.
  unfold process_csv, complete. destruct (missing_cols t); [|reflexivity].
  destruct (make_csv_df _ _ _); discriminate.
Qed.

Lemma process_csv_Raised (t : input_table) (e : extract_error) :
  process_csv noun_chunks stop_words kind t = Raised e ->
  e = KeyError "count" /\
  table_phrases noun_chunks stop_words (dropna (table_rows t)) = [].
Proof.
  unfold process_csv, make_csv_df.
  destruct (missing_cols t); [|discriminate].
  fold (table_dict noun_chunks stop_words (dropna (table_rows t))).
  destruct (table_dict noun_chunks stop_words (dropna (table_rows t)))
    as [|it d] eqn:E; [|discriminate].
  intros [= <-]. split; [reflexivity|]. now apply table_dict_nil.
Qed.

Lemma process_all_error (fs : list input_table)
    (results : list (list PhraseRecord)) (stats : list table_stats)
    (e : extract_error) :
  process_all noun_chunks stop_words kind fs results stats = inl e ->
  e = KeyError "count".
Proof.
  revert results stats. induction fs as [|t fs IH]; intros results stats;
    cbn [process_all]; [discriminate|].
  destruct (process_csv noun_chunks stop_words kind t) as [m|e'|df st] eqn:E.
  - apply IH.
  - intros [= <-]. now apply process_csv_Raised in E.
  - apply IH.
Qed.

Lemma process_all_raises (fs : list input_table) (t : input_table)
    (e : extract_error) (results : list (list PhraseRecord))
    (stats : list table_stats) :
  In t fs ->
  process_csv noun_chunks stop_words kind t = Raised e ->
  process_all noun_chunks stop_words kind fs results stats
    = inl (KeyError "count").
Proof.
  intros Hin Ht. revert results stats.
  induction fs as [|t0 fs IH]; intros results stats; [destruct Hin|].
  cbn [process_all].
  destruct (process_csv noun_chunks stop_words kind t0) as [m|e'|df st] eqn:E.
  - destruct Hin as [->|Hin]; [congruence | now apply IH].
  - apply process_csv_Raised in E. destruct E as [-> _]. reflexivity.
  - destruct Hin as [->|Hin]; [congruence | now apply IH].
Qed.

Lemma process_all_outputs (fs : list input_table)
    (results rs : list (list PhraseRecord)) (stats ss : list table_stats) :
  process_all noun_chunks stop_words kind fs results stats = inr (rs, ss) ->
  rs = results ++ map (fun t => sort_values kind
                                  (table_records noun_chunks stop_words t))
                      (filter complete fs) /\
  map st_csv_name ss = map st_csv_name stats ++ map csv_name (filter complete fs).
Proof.
  revert results stats. induction fs as [|t fs IH]; intros results stats;
    cbn [process_all filter].
  - intros [= <- <-]. cbn [map]. now rewrite !app_nil_r.
  - destruct (process_csv noun_chunks stop_words kind t) as [m|e'|df st] eqn:E.
    + apply process_csv_Skipped in E. rewrite E. apply IH.
    + discriminate.
    + apply process_csv_Processed in E. destruct E as (-> & -> & Hname).
      intros Hrun. apply IH in Hrun. destruct Hrun as [-> Hss].
      cbn [map]. rewrite <- !app_assoc. split; [reflexivity|].
      rewrite Hss, map_app. cbn [map]. rewrite Hname, <- app_assoc. reflexivity.
Qed.

(** Replacing a table by one with the same outcome leaves the run as it is. *)
Lemma process_all_same_outcome (before after : list input_table)
    (t t' : input_table) (results : list (list PhraseRecord))
    (stats : list table_stats) :
  process_csv noun_chunks stop_words kind t
    = process_csv noun_chunks stop_words kind t' ->
  process_all noun_chunks stop_words kind (before ++ t :: after) results stats
  = process_all noun_chunks stop_words kind (before ++ t' :: after) results stats.
Proof.
  intros Hsame. revert results stats.
  induction before as [|t0 before IH]; intros results stats;
    cbn [app process_all].
  - now rewrite Hsame.
  - destruct (process_csv noun_chunks stop_words kind t0); auto.
Qed.

Lemma extractor_same_outcome (before after : list input_table)
    (t t' : input_table) :
  process_csv noun_chunks stop_words kind t
    = process_csv noun_chunks stop_words kind t' ->
  extractor noun_chunks stop_words kind (before ++ t :: after)
  = extractor noun_chunks stop_words kind (before ++ t' :: after).
Proof.
  intros Hsame. unfold extractor.
  rewrite (process_all_same_outcome before after t t' [] [] Hsame).
  now destruct before.
Qed.

Lemma process_all_skip (before after : list input_table) (t : input_table)
    (results : list (list PhraseRecord)) (stats : list table_stats) :
  complete t = false ->
  process_all noun_chunks stop_words kind (before ++ t :: after) results stats
  = process_all noun_chunks stop_words kind (before ++ after) results stats.
Proof.
  intros Ht. revert results stats.
  induction before as [|t0 before IH]; intros results stats;
    cbn [app process_all].
  - unfold process_csv. unfold complete in Ht.
    now destruct (missing_cols t).
  - destruct (process_csv noun_chunks stop_words kind t0); auto.
Qed.

End RunFacts.

(** X4. A table that has the required columns and yields no phrase
    occurrence (no row, no row with text, title and date, or no phrase kept)
    makes the sort of its empty frame raise [KeyError('count')]; such a table
    anywhere in the list ends the whole run with that error, so that neither
    the combined table nor the summary is produced. *)
Theorem X4_no_phrase_raises
    (noun_chunks : string -> list string) (stop_words : string -> bool)
    (kind : sort_kind) (t : input_table) :
  missing_cols t = [] ->
  (table_phrases noun_chunks stop_words (dropna (table_rows t)) = [] <->
   process_csv noun_chunks stop_words kind t = Raised (KeyError "count")) /\
  (table_phrases noun_chunks stop_words (dropna (table_rows t)) = [] ->
   forall csv_files,
     In t csv_files ->
     extractor noun_chunks stop_words kind csv_files = inl (KeyError "count")).
Proof.
  intros Hcols.
  assert (Hraise : table_phrases noun_chunks stop_words (dropna (table_rows t)) = []
                   -> process_csv noun_chunks stop_words kind t
                      = Raised (KeyError "count")).
  { intros Hnone. apply table_dict_nil in Hnone.
    unfold process_csv, make_csv_df. rewrite Hcols.
    fold (table_dict noun_chunks stop_words (dropna (table_rows t))).
    now rewrite Hnone. }
  split; [split; [exact Hraise|]|].
  - intros Hrun. now apply process_csv_Raised in Hrun.
  - intros Hnone csv_files Hin. unfold extractor.
    destruct csv_files as [|t0 fs]; [destruct Hin|].
    now rewrite (process_all_raises noun_chunks stop_words kind (t0 :: fs) t
                   [] [] Hin (Hraise Hnone)).
Qed.

(** X5. A table lacking one of the columns [sentence], [title], [date] is
    skipped with the list of the columns it lacks: the run goes on as if the
    table were not in the list; when it was the only one, the run ends
    without error, with no per-table result, no combined table and an empty
    summary. *)
Theorem X5_missing_column_skipped
    (noun_chunks : string -> list string) (stop_words : string -> bool)
    (kind : sort_kind) (t : input_table) :
  missing_cols t <> [] ->
  process_csv noun_chunks stop_words kind t = Skipped (missing_cols t) /\
  forall before after,
    extractor noun_chunks stop_words kind (before ++ t :: after) =
    match before ++ after with
    | [] => inr {| all_results := []; combined := None; summary := [] |}
    | rest => extractor noun_chunks stop_words kind rest
    end.
Proof.
  intros Hmissing.
  assert (Ht : complete t = false).
  { unfold complete. now destruct (missing_cols t). }
  split.
  - unfold process_csv. now destruct (missing_cols t).
  - intros before after. unfold extractor.
    rewrite (process_all_skip noun_chunks stop_words kind before after t [] [] Ht).
    destruct before as [|t0 before]; cbn [app]; [|reflexivity].
    now destruct after.
Qed.

(** X6. A run that ends without error returns, in the order of the file
    list, the sorted records of every table that has the required columns;
    the summary names the same tables in the same order, and the combined
    table is missing exactly when every table was skipped. *)
Theorem X6_run_outputs
    (noun_chunks : string -> list string) (stop_words : string -> bool)
    (kind : sort_kind) (csv_files : list input_table) (o : extractor_output) :
  extractor noun_chunks stop_words kind csv_files = inr o ->
  all_results o
    = map (fun t => sort_values kind (table_records noun_chunks stop_words t))
          (filter complete csv_files) /\
  map st_csv_name (summary o) = map csv_name (filter complete csv_files) /\
  (combined o = None <-> filter complete csv_files = []).
Proof.
  unfold extractor. destruct csv_files as [|t fs]; [discriminate|].
  destruct (process_all noun_chunks stop_words kind (t :: fs) [] [])
    as [e|[rs ss]] eqn:Hrun; [discriminate|].
  intros [= <-]. cbn [all_results summary combined].
  apply process_all_outputs in Hrun. cbn [app map] in Hrun.
  destruct Hrun as [-> Hss]. split; [reflexivity|]. split; [exact Hss|].
  destruct (filter complete (t :: fs)) as [|t1 ts]; cbn [map].
  - tauto.
  - split; discriminate.
Qed.

(** X7. A row without sentence text is dropped before anything else: a
    table gives the same outcome, statistics included, with or without it,
    and so does the run. *)
Theorem X7_null_sentence_dropped
    (noun_chunks : string -> list string) (stop_words : string -> bool)
    (kind : sort_kind) (name : string) (cols : list string)
    (a b : list SentenceRecord) (r : SentenceRecord) :
  sentence r = None ->
  process_csv noun_chunks stop_words kind (mkInputTable name cols (a ++ r :: b))
    = process_csv noun_chunks stop_words kind (mkInputTable name cols (a ++ b)) /\
  forall before after,
    extractor noun_chunks stop_words kind
      (before ++ mkInputTable name cols (a ++ r :: b) :: after)
    = extractor noun_chunks stop_words kind
        (before ++ mkInputTable name cols (a ++ b) :: after).
Proof.
  intros Hnull.
  assert (Hsame : process_csv noun_chunks stop_words kind
                    (mkInputTable name cols (a ++ r :: b))
                  = process_csv noun_chunks stop_words kind
                      (mkInputTable name cols (a ++ b))).
  { assert (Hdrop : dropna (a ++ r :: b) = dropna (a ++ b)).
    { rewrite dropna_insert. unfold has_sentence. rewrite Hnull.
      cbn [app]. unfold dropna. now rewrite <- filter_app. }
    unfold process_csv, missing_cols. cbn [columns table_rows csv_name].
    now rewrite Hdrop. }
  split; [exact Hsame|].
  intros before after. now apply extractor_same_outcome.
Qed.

(** ** The order of a per-table output *)


(** ** More on the Merger *)

Lemma join_sources_one (s : string) : join_sources [s] = s.
Proof. reflexivity. Qed.

Definition has_both (r : MergeRow) : bool :=
  match m_phrase r, m_pos r with
  | Some _, Some _ => true
  | _, _ => false
  end.

Lemma keyed_has_both (rows : list MergeRow) :
  Forall lowered rows ->
  filter (keyed merge_key) rows = filter has_both rows.
Proof.
  intros Hlow. apply filter_ext_in. intros r Hr.
  rewrite Forall_forall in Hlow. specialize (Hlow r Hr).
  unfold keyed, merge_key, has_both. rewrite Hlow.
  destruct (m_phrase r); simpl; [|reflexivity]. now destruct (m_pos r).
Qed.

Lemma records_keys (rows : list MergeRow) :
  Forall lowered rows ->
  map (fun r => (PyStr.lower (phrase r), pos r)) (records rows)
  = group_keys merge_key pair_leb rows.
Proof.
  intros Hlow. unfold records. rewrite map_map.
  rewrite <- (groupby_keys merge_key pair_leb rows).
  apply map_ext_in. intros [[k p] g] Hg.
  destruct (@group_phrase rows k p g Hlow Hg)
    as (r0 & rest & ph & _ & _ & Hk & Hph).
  rewrite Hph, Hk. reflexivity.
Qed.

Definition null_keyed (r : PhraseRow) : Prop :=
  phrase_cell r = None \/ pos_cell r = None.

Lemma merge_key_null (r : PhraseRow) (src : option string) :
  null_keyed r -> merge_key (with_lower r src) = None.
Proof.
  unfold merge_key, with_lower. cbn [phrase_lower m_pos].
  intros [-> | ->]; [reflexivity|].
  now destruct (option_map PyStr.lower (phrase_cell r)).
Qed.

Lemma grouped_skip (x y : list MergeRow) (r : MergeRow) :
  merge_key r = None -> grouped (x ++ r :: y) = grouped (x ++ y).
Proof. intros Hr. unfold grouped. f_equal. now apply groupby_skip. Qed.

Lemma merge_frames_skip (kind : sort_kind) (xs ys : list (list MergeRow))
    (x y : list MergeRow) (r : MergeRow) :
  merge_key r = None ->
  merge_frames kind (xs ++ (x ++ r :: y) :: ys)
  = merge_frames kind (xs ++ (x ++ y) :: ys).
Proof.
  intros Hr. unfold merge_frames.
  rewrite !concat_app. cbn [concat].
  replace (concat xs ++ (x ++ r :: y) ++ concat ys)
    with ((concat xs ++ x) ++ r :: (y ++ concat ys))
    by (now rewrite <- !app_assoc).
  replace (concat xs ++ (x ++ y) ++ concat ys)
    with ((concat xs ++ x) ++ (y ++ concat ys))
    by (now rewrite <- !app_assoc).
  rewrite (@grouped_skip _ _ r Hr). now destruct xs.
Qed.

(** X8. The Merger leaves out, without a word, every row whose phrase or
    pos cell is null, whatever its source cell holds: as long as the file
    loads with and without the row (its phrase column holds text, or has no
    row), the merged table is the same with or without it; only the row
    count in the log line of the file tells it. *)
Theorem X8_merger_null_cells
    (kind : sort_kind) (before after : list csv_file) (name stm : string)
    (a b : list (PhraseRow * option string)) (r : PhraseRow)
    (src : option string) :
  null_keyed r ->
  holds_text (map (fun rs => phrase_cell (fst rs)) (a ++ (r, src) :: b)) ->
  holds_text (map (fun rs => phrase_cell (fst rs)) (a ++ b)) ->
  snd (merge_csvs_by_phrase kind
         (before ++ mkCsvFile name stm (Some (WithSource (a ++ (r, src) :: b)))
                 :: after))
  = snd (merge_csvs_by_phrase kind
           (before ++ mkCsvFile name stm (Some (WithSource (a ++ b))) :: after)).
Proof.
  intros Hnull Hwith Hwithout.
  set (F := fun rs : PhraseRow * option string => with_lower (fst rs) (snd rs)).
  set (f := mkCsvFile name stm (Some (WithSource (a ++ (r, src) :: b)))).
  set (f' := mkCsvFile name stm (Some (WithSource (a ++ b)))).
  assert (Hf : load_file f = Some (map F (a ++ (r, src) :: b))).
  { now apply (loadable_load f (fr := WithSource (a ++ (r, src) :: b))). }
  assert (Hf' : load_file f' = Some (map F (a ++ b))).
  { now apply (loadable_load f' (fr := WithSource (a ++ b))). }
  rewrite !merge_result by now destruct before.
  rewrite !loaded_frames_insert, Hf, Hf'. cbn [app].
  rewrite !map_app. cbn [map].
  change (F (r, src)) with (with_lower r src).
  apply merge_frames_skip. now apply merge_key_null.
Qed.

(** X9. Whenever the Merger returns a table (some file loads and every
    grouped row has text in its source cell), the table is ordered by count,
    largest first, and no two of its records share both the lowercase phrase
    and the pos tag; when the counts merged into each record add up to a
    number an int64 holds, the counts of the table add up to the counts of
    the loaded rows that have a phrase and a pos. *)
Theorem X9_merged_table_shape (kind : sort_kind) (csv_files : list csv_file) :
  loaded_frames csv_files <> [] ->
  text_sources (concat (loaded_frames csv_files)) = true ->
  exists merged_df,
    snd (merge_csvs_by_phrase kind csv_files) = inr merged_df /\
    StronglySorted (fun a b => count b <= count a) merged_df /\
    NoDup (map (fun r => (PyStr.lower (phrase r), pos r)) merged_df) /\
    ((forall k p,
        in_int64 (sum_counts (map m_count
                    (filter (in_group k p) (concat (loaded_frames csv_files)))))) ->
     sum_counts (map count merged_df)
     = sum_counts (map m_count (filter has_both (concat (loaded_frames csv_files))))).
Proof.
  intros Hne Htext. eexists. split; [now apply merge_ok|].
  pose proof (loaded_frames_lowered csv_files) as Hlow.
  set (rows := concat (loaded_frames csv_files)) in *.
  pose proof (sort_values_perm kind (records rows)) as HP.
  split; [apply sort_values_desc|]. split.
  - apply (Permutation_NoDup (Permutation_map _ HP)).
    rewrite (records_keys Hlow). apply group_keys_NoDup.
  - intros Hfit.
    rewrite <- (sum_counts_perm (Permutation_map count HP)).
    rewrite <- (keyed_has_both Hlow).
    rewrite <- (groupby_sum merge_key pair_leb m_count rows).
    unfold records. rewrite map_map. apply sum_map_ext_in.
    intros [[k p] g] Hg. cbn [group_record count snd].
    apply int64_sum_exact.
    apply groupby_In in Hg. destruct Hg as (-> & _).
    rewrite (in_group_has_key k p Hlow). apply Hfit.
Qed.

(** X10. A loaded row that shares its lowercase phrase and pos tag with no
    other row comes out of the Merger as it went in: same phrase, same
    count, and its own source as the source string.  The one way out is the
    merge raising on a source cell without text, in this or another group. *)
Theorem X10_merger_single_row
    (kind : sort_kind) (csv_files : list csv_file)
    (r0 : MergeRow) (ph p : string) :
  loaded_frames csv_files <> [] ->
  m_phrase r0 = Some ph ->
  filter (in_group (PyStr.lower ph) p) (concat (loaded_frames csv_files)) = [r0] ->
  if text_sources (concat (loaded_frames csv_files))
  then exists merged_df src,
         snd (merge_csvs_by_phrase kind csv_files) = inr merged_df /\
         m_source r0 = Some src /\
         filter (stands_for (PyStr.lower ph) p) merged_df
         = [ {| phrase := ph; pos := p; count := m_count r0;
                csv_source := src |} ]
  else snd (merge_csvs_by_phrase kind csv_files) = inl JoinTypeError.
Proof.
  intros Hne Hph Hgroup.
  destruct (text_sources (concat (loaded_frames csv_files))) eqn:Htext;
    [|now apply merge_raises].
  destruct (merged_group kind csv_files (PyStr.lower ph) p Hne Htext)
    as (merged_df & Hdf & Hg).
  rewrite Hgroup in Hg. destruct Hg as (ph' & sources & Hph' & Hsrc & Hone).
  rewrite Hph in Hph'. injection Hph' as <-.
  destruct sources as [|src [|src' sources]]; try discriminate Hsrc.
  injection Hsrc as Hsrc.
  exists merged_df, src. repeat split; try assumption.
Qed.


(** ** More on the Combiner *)

Lemma filter_keyed_all {A K : Type} (key_of : A -> K) (l : list A) :
  filter (keyed (fun r => Some (key_of r))) l = l.
Proof. apply filter_all, Forall_forall. intros r _. reflexivity. Qed.

Lemma aggregated_phrases (kind : sort_kind) (results : list (list PhraseRecord)) :
  NoDup (map phrase (aggregated kind results)).
Proof.
  unfold aggregated.
  apply (Permutation_NoDup (Permutation_map phrase (sort_values_perm kind _))).
  rewrite map_map. cbn [combine_group phrase].
  rewrite (groupby_keys (fun r => Some (phrase r)) String.leb (concat results)).
  apply group_keys_NoDup.
Qed.

(** X11. The combined table is ordered by count, largest first; its
    phrases are pairwise different, every record carries the constant tag,
    and its counts add up to the counts of all per-table records. *)
Theorem X11_combined_table_shape (kind : sort_kind)
    (results : list (list PhraseRecord)) :
  StronglySorted (fun a b => count b <= count a) (aggregated kind results) /\
  NoDup (map phrase (aggregated kind results)) /\
  Forall (fun r => pos r = NOUN_PHRASE) (aggregated kind results) /\
  sum_counts (map count (aggregated kind results))
  = sum_counts (map count (concat results)).
Proof.
  repeat apply conj.
  - apply sort_values_desc.
  - apply aggregated_phrases.
  - unfold aggregated. apply Forall_forall. intros r Hr.
    apply (Permutation_in _ (Permutation_sym (sort_values_perm kind _))) in Hr.
    apply in_map_iff in Hr. now destruct Hr as (g & <- & _).
  - unfold aggregated.
    rewrite <- (sum_counts_perm (Permutation_map count (sort_values_perm kind _))).
    rewrite map_map. cbn [combine_group count].
    rewrite (groupby_sum (fun r => Some (phrase r)) String.leb count).
    now rewrite filter_keyed_all.
Qed.

Lemma filter_phrase_NoDup (p : string) (tbl : list PhraseRecord) :
  NoDup (map phrase tbl) ->
  filter (has_phrase p) tbl = [] \/
  exists r0, filter (has_phrase p) tbl = [r0] /\ phrase r0 = p.
Proof.
  induction tbl as [|r tbl IH]; intros Hnd; [now left|].
  inversion Hnd as [|? ? Hr Htbl]; subst. cbn [filter].
  change (has_phrase p r) with (String.eqb (phrase r) p).
  destruct (String.eqb_spec (phrase r) p) as [Hp|Hp]; [|now apply IH].
  right. exists r. split; [|assumption]. f_equal.
  destruct (filter (has_phrase p) tbl) as [|r1 t] eqn:E; [reflexivity|].
  exfalso. apply Hr.
  assert (Hin : In r1 (filter (has_phrase p) tbl)) by (rewrite E; now left).
  apply filter_In in Hin. destruct Hin as [Hin Hp1].
  unfold has_phrase in Hp1. apply String.eqb_eq in Hp1.
  rewrite Hp, <- Hp1. now apply in_map.
Qed.

Lemma aggregated_single (kind : sort_kind) (tbl : list PhraseRecord) :
  NoDup (map phrase tbl) ->
  Forall (fun r => pos r = NOUN_PHRASE) tbl ->
  Permutation tbl (aggregated kind [tbl]).
Proof.
  intros Hnd Hpos.
  assert (Hsel : forall p, filter (has_phrase p) (aggregated kind [tbl])
                           = filter (has_phrase p) tbl).
  { intros p. rewrite aggregated_select. cbn [concat]. rewrite app_nil_r.
    destruct (filter_phrase_NoDup p tbl Hnd) as [->|(r0 & E & Hp)]; [reflexivity|].
    rewrite E. f_equal.
    assert (Hr0 : In r0 tbl).
    { assert (Hin : In r0 (filter (has_phrase p) tbl)) by (rewrite E; now left).
      now apply filter_In in Hin. }
    rewrite Forall_forall in Hpos. specialize (Hpos r0 Hr0).
    destruct r0 as [ph0 pos0 c0 s0]. cbn [phrase pos] in *. subst.
    cbn [map count csv_source sum_counts fold_right].
    rewrite join_sources_one. now rewrite Z.add_0_r. }
  assert (Hmem : forall (l : list PhraseRecord) r,
            In r l <-> In r (filter (has_phrase (phrase r)) l)).
  { intros l r. rewrite filter_In. unfold has_phrase.
    rewrite String.eqb_refl. tauto. }
  apply NoDup_Permutation.
  - now apply NoDup_map_inv in Hnd.
  - apply (NoDup_map_inv phrase), aggregated_phrases.
  - intros r. rewrite (Hmem tbl r), (Hmem (aggregated kind [tbl]) r).
    now rewrite Hsel.
Qed.

Lemma table_records_shape
    (noun_chunks : string -> list string) (stop_words : string -> bool)
    (t : input_table) :
  NoDup (map phrase (table_records noun_chunks stop_words t)) /\
  Forall (fun r => pos r = NOUN_PHRASE) (table_records noun_chunks stop_words t).
Proof.
  unfold table_records.
  set (d := table_dict noun_chunks stop_words (dropna (table_rows t))).
  split.
  - apply (NoDup_map_inv PyStr.lower). rewrite !map_map.
    unfold Dict.values. rewrite map_map.
    pose proof (table_dict_NoDup noun_chunks stop_words (dropna (table_rows t)))
      as Hnd.
    pose proof (table_dict_well_keyed noun_chunks stop_words
                  (dropna (table_rows t))) as Hwk.
    fold d in Hnd, Hwk. unfold Dict.keys in Hnd.
    rewrite (map_ext_in _ fst); [exact Hnd|].
    intros it Hit. unfold well_keyed in Hwk. rewrite Forall_forall in Hwk.
    cbn [to_record phrase]. now apply Hwk.
  - apply Forall_forall. intros r Hr. apply in_map_iff in Hr.
    now destruct Hr as (v & <- & _).
Qed.

(** X12. When a single table is processed, the combined table holds
    exactly the records of that table's output. *)
Theorem X12_single_table_combined
    (noun_chunks : string -> list string) (stop_words : string -> bool)
    (kind : sort_kind) (t : input_table)
    (csv_df : list PhraseRecord) (st : table_stats) :
  process_csv noun_chunks stop_words kind t = Processed csv_df st ->
  Permutation csv_df (aggregated kind [csv_df]) /\
  extractor noun_chunks stop_words kind [t]
  = inr {| all_results := [csv_df];
           combined := Some (aggregated kind [csv_df]);
           summary := [st] |}.
Proof.
  intros Hrun. split.
  - apply process_csv_Processed in Hrun. destruct Hrun as (_ & -> & _).
    destruct (table_records_shape noun_chunks stop_words t) as [Hnd Hpos].
    pose proof (sort_values_perm kind (table_records noun_chunks stop_words t))
      as HP.
    apply aggregated_single.
    + apply (Permutation_NoDup (Permutation_map phrase HP) Hnd).
    + apply (Permutation_Forall HP Hpos).
  - unfold extractor. cbn [process_all]. now rewrite Hrun.
Qed.

(** ** Bounds on the statistics *)

Lemma unique_length {K : Type} `{Hashable K} (l : list K) :
  (length (unique l) <= length l)%nat.
Proof.
  induction l as [|x l IH]; simpl; [lia|].
  destruct (existsb (keyb x) l); simpl; lia.
Qed.

Lemma present_keys_length {K R : Type} (key_of : R -> option K) (df : list R) :
  (length (present_keys key_of df) <= length df)%nat.
Proof.
  induction df as [|r df IH]; simpl; [lia|].
  destruct (key_of r); simpl; lia.
Qed.

Lemma processed_stats
    (noun_chunks : string -> list string) (stop_words : string -> bool)
    (kind : sort_kind) (t : input_table)
    (csv_df : list PhraseRecord) (st : table_stats) :
  process_csv noun_chunks stop_words kind t = Processed csv_df st ->
  let df := dropna (table_rows t) in
  table_phrases noun_chunks stop_words df <> [] /\
  total_sentences st = Z.of_nat (length df) /\
  total_articles st = Z.of_nat (length (article_groups df)) /\
  unique_noun_phrases st
    = Z.of_nat (length (Dict.keys (table_dict noun_chunks stop_words df))) /\
  total_phrase_occurrences st
    = Z.of_nat (length (table_phrases noun_chunks stop_words df)).
Proof.
  intros Hrun df.
  set (d := table_dict noun_chunks stop_words df).
  unfold process_csv, make_csv_df in Hrun.
  destruct (missing_cols t); [|discriminate].
  fold df in Hrun.
  fold (table_dict noun_chunks stop_words df) in Hrun. fold d in Hrun.
  destruct (Dict.values d) as [|v vs] eqn:Ev; [discriminate|].
  rewrite <- Ev in Hrun. injection Hrun as <- <-.
  cbn [total_sentences total_articles unique_noun_phrases
       total_phrase_occurrences].
  pose proof (sort_values_perm kind (map (to_record (csv_name t)) (Dict.values d)))
    as HP.
  repeat split.
  - intros Hnone. apply table_dict_nil in Hnone. fold d in Hnone.
    rewrite Hnone in Ev. discriminate.
  - rewrite <- (Permutation_length HP). unfold Dict.values, Dict.keys.
    now rewrite !length_map.
  - rewrite <- (sum_counts_perm (Permutation_map count HP)).
    rewrite map_map. unfold Dict.values. rewrite map_map.
    cbn [to_record count]. apply table_dict_total.
Qed.

(** X13. Whenever the statistics of a table are computed, the table has at
    least one article and at least one phrase: 1 <= articles <= sentences and
    1 <= unique phrases <= total occurrences.  The guard against a zero
    article count in the average is thus never taken. *)
Theorem X13_statistics_bounds
    (noun_chunks : string -> list string) (stop_words : string -> bool)
    (kind : sort_kind) (t : input_table)
    (csv_df : list PhraseRecord) (st : table_stats) :
  process_csv noun_chunks stop_words kind t = Processed csv_df st ->
  1 <= total_articles st <= total_sentences st /\
  1 <= unique_noun_phrases st <= total_phrase_occurrences st.
Proof.
  intros Hrun.
  destruct (processed_stats noun_chunks stop_words kind t Hrun)
    as (Hsome & -> & -> & -> & ->).
  set (df := dropna (table_rows t)) in *.
  assert (Hgroups : article_groups df <> []).
  { intros Hnil. apply Hsome. unfold table_phrases. now rewrite Hnil. }
  assert (Hkeys : Dict.keys (table_dict noun_chunks stop_words df) <> []).
  { intros Hnil. apply Hsome. apply table_dict_nil.
    destruct (table_dict noun_chunks stop_words df); [reflexivity | discriminate]. }
  assert (Hle1 : (length (article_groups df) <= length df)%nat).
  { unfold article_groups, groupby. rewrite length_map.
    rewrite <- (Permutation_length (sorted_perm _ _)).
    etransitivity; [apply unique_length | apply present_keys_length]. }
  assert (Hle2 : (length (Dict.keys (table_dict noun_chunks stop_words df))
                  <= length (table_phrases noun_chunks stop_words df))%nat).
  { rewrite (Permutation_length
               (l' := unique (map PyStr.lower
                                  (table_phrases noun_chunks stop_words df)))).
    - etransitivity; [apply unique_length | now rewrite length_map].
    - apply NoDup_Permutation.
      + apply table_dict_NoDup.
      + apply unique_NoDup.
      + intros k. rewrite unique_In. apply table_dict_keys. }
  destruct (article_groups df); [contradiction|].
  destruct (Dict.keys (table_dict noun_chunks stop_words df)); [contradiction|].
  cbn [length] in *. lia.
Qed.

(** ** The text kept for a key *)

(** X14. The text a table keeps for a key, in full: none when the key has
    no occurrence; the first occurrence that differs from the lowercase key
    when there is one; the lowercase key itself otherwise.  The text is
    always one of the occurrences. *)
Theorem X14_canonical_text
    (noun_chunks : string -> list string) (stop_words : string -> bool)
    (df : list SentenceRecord) (k : string) :
  let forms := filter (same_key k) (table_phrases noun_chunks stop_words df) in
  canonical k (table_dict noun_chunks stop_words df) =
  match forms with
  | [] => None
  | _ :: _ => match first_cased k forms with
              | Some f => Some f
              | None => Some k
              end
  end /\
  (forall text, canonical k (table_dict noun_chunks stop_words df) = Some text ->
                In text forms).
Proof.
  cbv zeta. unfold canonical. rewrite table_dict_tally.
  set (forms := filter (same_key k) (table_phrases noun_chunks stop_words df)).
  destruct forms as [|f0 rest] eqn:E; [split; [reflexivity | discriminate]|].
  rewrite tally_cons. cbn [option_map fst].
  remember (first_cased k (f0 :: rest)) as fc eqn:Efc. symmetry in Efc.
  destruct fc as [f|].
  - split; [reflexivity|]. intros text [= <-].
    eapply first_cased_In. exact Efc.
  - assert (Hf0 : f0 = k).
    { unfold first_cased in Efc. cbn [find] in Efc.
      destruct (String.eqb_spec f0 k); [assumption | discriminate]. }
    split; [now rewrite Hf0|]. intros text [= <-]. now left.
Qed.

End KeyColumns.

Arguments SentenceRecord : clear implicits.
Arguments input_table : clear implicits.

(** * Examples to run the model on *)

(** A stand-in for the chunker: the spans between commas. *)
Fixpoint comma_spans (s : string) : string * list string :=
  match s with
  | EmptyString => (EmptyString, [])
  | String c s' =>
      let (w, ws) := comma_spans s' in
      if Ascii.eqb c "," then (EmptyString, w :: ws) else (String c w, ws)
  end.

Definition toy_chunks (s : string) : list string :=
  let (w, ws) := comma_spans s in w :: ws.

(** A stand-in for the stop-word set. *)
Definition toy_stop_words (w : string) : bool :=
  existsb (String.eqb w) ["the"; "a"; "of"].

(** ** Tables of the Extractor *)

(** A row of a table whose titles and dates are text. *)
Definition row (s t d : string) : SentenceRecord string string :=
  {| sentence := Some s; title := Some t; date := Some d |}.

(** A row of a table whose dates pandas read as integers. *)
Definition dated_row (s t : string) (d : Z) : SentenceRecord string Z :=
  {| sentence := Some s; title := Some t; date := Some d |}.

Definition budget_article : list (SentenceRecord string string) :=
  [ row "The government, new taxes" "Budget" "2025-01-02";
    row "  the Government " "Budget" "2025-01-02";
    row "Officials, of Accra, the government" "Budget" "2025-01-02" ].

Definition budget_table : list (SentenceRecord string string) :=
  row "accra, the port" "Airport" "2025-01-03" :: budget_article.

Definition budget_input : input_table string string :=
  mkInputTable "budget" ["sentence"; "title"; "date"] budget_table.

(** Two articles told apart by an integer date: 9 comes before 10, where
    the text "10" would come before the text "9". *)
Definition numbered_table : list (SentenceRecord string Z) :=
  [ dated_row "Accra" "News" 10; dated_row "ACCRA" "News" 9 ].

Definition alpha_beta : input_table string string :=
  {| csv_name := "daily";
     columns := ["sentence"; "title"; "date"; "url"];
     table_rows := [row "alpha, beta" "T" "D"] |}.

Definition null_title_row : SentenceRecord string string :=
  {| sentence := Some "gamma"; title := None; date := Some "D" |}.

Definition null_sentence_row : SentenceRecord string string :=
  {| sentence := None; title := Some "Budget"; date := Some "2025-01-02" |}.

Definition untitled_table : input_table string string :=
  mkInputTable "untitled" ["sentence"; "title"; "date"] [null_title_row].

Definition no_date_table : input_table string string :=
  mkInputTable "no_date" ["sentence"; "title"; "url"] [row "alpha" "T" "D"].

Definition accra_results : list (list PhraseRecord) :=
  [ [ mkPhraseRecord "Accra" NOUN_PHRASE 3 "daily";
      mkPhraseRecord "port" NOUN_PHRASE 2 "daily" ];
    [ mkPhraseRecord "accra" NOUN_PHRASE 2 "weekly";
      mkPhraseRecord "port" NOUN_PHRASE 1 "weekly";
      mkPhraseRecord "port" NOUN_PHRASE 1 "daily" ] ].

(** ** Files of the Merger *)

Definition phrase_row (ph tag : string) (n : Z) : PhraseRow :=
  {| phrase_cell := Some ph; pos_cell := Some tag; count_cell := n |}.

Definition accra_file : csv_file :=
  {| file_name := "accra_noun_phrases.csv";
     stem := "accra_noun_phrases";
     read_csv := Some (WithSource
       [ (phrase_row "Accra" "NOUN_PHRASE" 3, Some "accra");
         (phrase_row "port" "NOUN_PHRASE" 1, Some "accra") ]) |}.

Definition tema_file : csv_file :=
  {| file_name := "tema.csv";
     stem := "tema";
     read_csv := Some (WithoutSource
       [ phrase_row "accra" "NOUN_PHRASE" 2;
         phrase_row "Port" "NOUN_PHRASE" 4;
         phrase_row "accra" "PROPN" 7 ]) |}.

Definition weekly_file : csv_file :=
  {| file_name := "weekly.csv";
     stem := "weekly";
     read_csv := Some (WithoutSource
       [ phrase_row "accra" "NOUN_PHRASE" 2;
         phrase_row "Port" "NOUN_PHRASE" 4 ]) |}.

(** The summary table of the Extractor: no [phrase] column. *)
Definition broken_file : csv_file :=
  {| file_name := "processing_summary.csv";
     stem := "processing_summary";
     read_csv := None |}.

(** A table whose phrase cells are all null. *)
Definition nulls_file : csv_file :=
  {| file_name := "nulls.csv";
     stem := "nulls";
     read_csv := Some (WithoutSource
       [ mkPhraseRow None (Some "NOUN_PHRASE") 1;
         mkPhraseRow None (Some "NOUN_PHRASE") 2 ]) |}.

(** A table with a null in its source column. *)
Definition unsourced_file : csv_file :=
  {| file_name := "unsourced.csv";
     stem := "unsourced";
     read_csv := Some (WithSource
       [ (phrase_row "Tema" "NOUN_PHRASE" 2, Some "daily");
         (phrase_row "tema" "NOUN_PHRASE" 1, None) ]) |}.

(** A table whose counts add up to 2^63. *)
Definition huge_file : csv_file :=
  {| file_name := "huge.csv";
     stem := "huge";
     read_csv := Some (WithoutSource
       [ phrase_row "Tema" "NOUN_PHRASE" (2 ^ 63 - 1);
         phrase_row "tema" "NOUN_PHRASE" 1 ]) |}.

(** ** The claims at work *)

(** Three sentences of one article each holding "the government": count 3. *)
Lemma C1_three_sentences :
  In (("Budget", "2025-01-02"), budget_article) (article_groups budget_table) /\
  count_in "government"
    (lookup_default ("Budget", "2025-01-02")
       (article_noun_phrases toy_chunks toy_stop_words budget_table)) =
  Z.of_nat 3.
Proof.
  split.
  - vm_compute. right. left. reflexivity.
  - rewrite (C1_per_article_count toy_chunks toy_stop_words budget_table
               ("Budget", "2025-01-02") budget_article "government").
    + reflexivity.
    + vm_compute. right. left. reflexivity.
Defined.

(** In the budget article "government" is read before "Government"; in
    the budget table "accra" (article Airport) is read before "Accra"
    (article Budget), the groups being taken in key order; in the numbered
    table the article dated 9 is read before the article dated 10, so that
    "ACCRA" is the first cased form. *)
Lemma C4_first_cased_form :
  canonical "government"
    (lookup_default ("Budget", "2025-01-02")
       (article_noun_phrases toy_chunks toy_stop_words budget_table))
    = Some "Government" /\
  canonical "accra" (table_dict toy_chunks toy_stop_words budget_table)
    = Some "Accra" /\
  canonical "accra" (table_dict toy_chunks toy_stop_words numbered_table)
    = Some "ACCRA".
Proof.
  destruct (C4_canonical_casing toy_chunks toy_stop_words budget_table
              "government" "Government") as (Harticle & _).
  destruct (C4_canonical_casing toy_chunks toy_stop_words budget_table
              "accra" "Accra") as (_ & Htable & _).
  destruct (C4_canonical_casing toy_chunks toy_stop_words numbered_table
              "accra" "ACCRA") as (_ & Hnumbered & _).
  split; [|split].
  - refine (proj1 (Harticle ("Budget", "2025-01-02") budget_article _ _)).
    + vm_compute. right. left. reflexivity.
    + reflexivity.
  - refine (proj1 (Htable _)). reflexivity.
  - refine (proj1 (Hnumbered _)). reflexivity.
Defined.

(** With the toy stop words: the chunk " The  of " is dropped, the chunk
    "the Port" is counted under "port". *)
Lemma C8_discard_and_keep :
  count_chunk toy_stop_words ("t", "d") " The  of " [] = [] /\
  count_chunk toy_stop_words ("t", "d") "the Port" []
    = [(("t", "d"), [("port", ("Port", 1))])] /\
  strip_leading_stopwords toy_stop_words "the economic growth" = "economic growth" /\
  strip_leading_stopwords toy_stop_words "the" = EmptyString.
Proof.
  destruct (C8_stopword_stripping (T:=string) (D:=string) toy_stop_words)
    as (_ & _ & Hdrop & Hkeep & Hexample).
  split; [|split].
  - apply Hdrop. reflexivity.
  - rewrite Hkeep; [reflexivity | discriminate].
  - apply Hexample; reflexivity.
Defined.

(** The summary table and the table of nulls are logged and skipped, and
    tema.csv is merged as if it were alone; tema.csv is logged with its
    three rows and its row "Port" has its record; with nothing but tables
    that do not load, the merge raises. *)
Lemma C9_skip_and_fail :
  snd (merge_csvs_by_phrase stable_kind [broken_file; tema_file])
    = snd (merge_csvs_by_phrase stable_kind [tema_file]) /\
  snd (merge_csvs_by_phrase stable_kind [nulls_file; tema_file])
    = snd (merge_csvs_by_phrase stable_kind [tema_file]) /\
  fst (merge_csvs_by_phrase stable_kind [broken_file; tema_file])
    = [ErrorLoading "processing_summary.csv"; Loaded "tema.csv" 3] /\
  (exists merged_df record,
     snd (merge_csvs_by_phrase stable_kind [broken_file; tema_file])
       = inr merged_df /\
     In record merged_df /\ stands_for "port" "NOUN_PHRASE" record = true) /\
  snd (merge_csvs_by_phrase stable_kind [broken_file; nulls_file])
    = inl NoObjectsToConcatenate.
Proof.
  destruct (C9_merger_failures stable_kind [] [tema_file] broken_file)
    as (_ & Hbroken & _ & Hnone).
  destruct (C9_merger_failures stable_kind [] [tema_file] nulls_file)
    as (_ & Hnulls & _).
  destruct (C9_merger_failures stable_kind [broken_file] [] tema_file)
    as (_ & _ & Htema & _).
  assert (Hno_text : unloadable nulls_file).
  { split; [discriminate|]. intros cell [<-|[<-|[]]]; reflexivity. }
  assert (Htext : holds_text (map phrase_cell
                    [ phrase_row "accra" "NOUN_PHRASE" 2;
                      phrase_row "Port" "NOUN_PHRASE" 4;
                      phrase_row "accra" "PROPN" 7 ])).
  { right. exists "accra". left. reflexivity. }
  destruct (Htema _ eq_refl Htext) as (Hlog & _ & _ & Hkept).
  repeat apply conj.
  - exact (proj2 (Hbroken I)).
  - exact (proj2 (Hnulls Hno_text)).
  - exact Hlog.
  - destruct (snd (merge_csvs_by_phrase stable_kind ([broken_file] ++ [tema_file])))
      as [e|merged_df] eqn:Hrun; [discriminate Hrun|].
    destruct (Hkept merged_df
                (with_lower (phrase_row "Port" "NOUN_PHRASE" 4) (Some "tema"))
                "port" "NOUN_PHRASE" eq_refl)
      as (record & Hin & Hfor).
    + right. left. reflexivity.
    + reflexivity.
    + exists merged_df, record. repeat split; assumption.
  - apply Hnone; [discriminate|].
    intros g [<-|[<-|[]]]; [exact I | exact Hno_text].
Defined.

(** "Accra" (3, source accra) and "accra" (2, from tema.csv, which has no
    source column) share the tag: one record, first casing, count 5.  In
    huge.csv the counts 2^63 - 1 and 1 are merged into - 2^63.  The null
    source of unsourced.csv makes the merge raise. *)
Lemma C6_accra_tema :
  load_file tema_file
    = Some (map (fun r => with_lower r (Some "tema"))
                [ phrase_row "accra" "NOUN_PHRASE" 2;
                  phrase_row "Port" "NOUN_PHRASE" 4;
                  phrase_row "accra" "PROPN" 7 ]) /\
  (exists merged_df,
     snd (merge_csvs_by_phrase stable_kind [accra_file; broken_file; tema_file])
       = inr merged_df /\
     filter (stands_for "accra" "NOUN_PHRASE") merged_df
       = [ mkPhraseRecord "Accra" "NOUN_PHRASE" 5 "accra, tema" ]) /\
  (exists merged_df,
     snd (merge_csvs_by_phrase stable_kind [huge_file]) = inr merged_df /\
     filter (stands_for "tema" "NOUN_PHRASE") merged_df
       = [ mkPhraseRecord "Tema" "NOUN_PHRASE" (- 2 ^ 63) "huge" ]) /\
  snd (merge_csvs_by_phrase stable_kind [accra_file; unsourced_file])
    = inl JoinTypeError.
Proof.
  destruct (C6_merger_groups stable_kind [accra_file; broken_file; tema_file])
    as (Hdefault & _ & _ & Hmerged & _).
  destruct (C6_merger_groups stable_kind [huge_file])
    as (_ & _ & _ & Hhuge & _).
  destruct (C6_merger_groups stable_kind [accra_file; unsourced_file])
    as (_ & _ & _ & _ & Hraises & _).
  repeat apply conj.
  - apply Hdefault; [reflexivity|].
    right. exists "accra". left. reflexivity.
  - destruct Hmerged as (merged_df & Hdf & Hgroups);
      [vm_compute; discriminate | reflexivity |].
    exists merged_df. split; [exact Hdf|].
    specialize (Hgroups "accra" "NOUN_PHRASE"). cbn in Hgroups.
    destruct Hgroups as (ph & sources & [= <-] & Hsrc & ->).
    destruct sources as [|s1 [|s2 [|s3 sources]]]; try discriminate Hsrc.
    injection Hsrc as <- <-. reflexivity.
  - destruct Hhuge as (merged_df & Hdf & Hgroups);
      [vm_compute; discriminate | reflexivity |].
    exists merged_df. split; [exact Hdf|].
    specialize (Hgroups "tema" "NOUN_PHRASE"). cbn in Hgroups.
    destruct Hgroups as (ph & sources & [= <-] & Hsrc & ->).
    destruct sources as [|s1 [|s2 [|s3 sources]]]; try discriminate Hsrc.
    injection Hsrc as <- <-. reflexivity.
  - apply Hraises; [vm_compute; discriminate | reflexivity].
Defined.

(** "Accra" and "accra" stay two records; "port" becomes one. *)
Lemma C5_accra_kept_apart :
  aggregated stable_kind accra_results
    = [ mkPhraseRecord "port" NOUN_PHRASE 4 "daily, weekly";
        mkPhraseRecord "Accra" NOUN_PHRASE 3 "daily";
        mkPhraseRecord "accra" NOUN_PHRASE 2 "weekly" ] /\
  exists a1 a2,
    In a1 (aggregated stable_kind accra_results) /\
    In a2 (aggregated stable_kind accra_results) /\
    phrase a1 = "Accra" /\ phrase a2 = "accra" /\ a1 <> a2.
Proof.
  split; [reflexivity|].
  destruct (C5_combiner_exact_text stable_kind accra_results) as (_ & Hapart & _).
  apply (Hapart (mkPhraseRecord "Accra" NOUN_PHRASE 3 "daily")
                (mkPhraseRecord "accra" NOUN_PHRASE 2 "weekly")).
  - left. reflexivity.
  - right. right. left. reflexivity.
  - discriminate.
Defined.

(** Key "accra": 3 + 2 over the per-table outputs, 3 + 2 + 7 over the
    phrase tables of the folder. *)
Lemma C3_accra_totals :
  key_total "accra" (aggregated stable_kind accra_results) = 5 /\
  exists merged_df,
    snd (merge_csvs_by_phrase stable_kind [accra_file; broken_file; tema_file])
      = inr merged_df /\
    key_total "accra" merged_df = 12.
Proof.
  destruct (C3_count_conservation stable_kind) as [Hcombiner Hmerger].
  split.
  - rewrite Hcombiner. reflexivity.
  - destruct (Hmerger [accra_file; broken_file; tema_file] "accra")
      as (merged_df & Hdf & Htotal).
    + vm_compute. discriminate.
    + vm_compute. repeat constructor.
    + reflexivity.
    + intros p. apply nonneg_counts_fit.
      * vm_compute. repeat constructor; discriminate.
      * vm_compute. split; [discriminate | reflexivity].
    + exists merged_df. split; [exact Hdf|]. rewrite Htotal. reflexivity.
Defined.

(** "government" in the budget table: one record of count 3; "accra" in the
    folder: one record of count 5, in either order of the two files. *)
Lemma C2_government_and_accra :
  (exists csv_df st text,
     process_csv toy_chunks toy_stop_words stable_kind budget_input
       = Processed csv_df st /\
     filter (fun r => same_key "government" (phrase r)) csv_df
       = [ mkPhraseRecord text NOUN_PHRASE 3 "budget" ]) /\
  (exists merged_df text sources,
     snd (merge_csvs_by_phrase stable_kind [accra_file; weekly_file])
       = inr merged_df /\
     filter (fun r => same_key "accra" (phrase r)) merged_df
       = [ mkPhraseRecord text "NOUN_PHRASE" 5 sources ]) /\
  (exists merged_df merged_df',
     snd (merge_csvs_by_phrase stable_kind [accra_file; weekly_file])
       = inr merged_df /\
     snd (merge_csvs_by_phrase stable_kind [weekly_file; accra_file])
       = inr merged_df' /\
     key_total "accra" merged_df = key_total "accra" merged_df').
Proof.
  destruct (C2_one_record_per_key (T:=string) (D:=string)
              toy_chunks toy_stop_words stable_kind)
    as (Htable & _ & Hone & Horder).
  assert (Hpos : Forall (fun r => m_pos r = Some "NOUN_PHRASE")
                        (concat (loaded_frames [accra_file; weekly_file]))).
  { vm_compute. repeat constructor. }
  assert (Hfit : in_int64 (sum_counts (map m_count
                   (filter (row_has_key "accra")
                      (concat (loaded_frames [accra_file; weekly_file])))))).
  { vm_compute. split; [discriminate | reflexivity]. }
  repeat apply conj.
  - destruct (Htable budget_input "government") as (csv_df & st & Hst & Hkey).
    + reflexivity.
    + vm_compute. discriminate.
    + cbn in Hkey. destruct Hkey as (text & Hkey). eauto.
  - destruct (Hone [accra_file; weekly_file] "accra" "NOUN_PHRASE")
      as (merged_df & Hdf & Hkey); try assumption.
    + vm_compute. discriminate.
    + reflexivity.
    + cbn in Hkey. destruct Hkey as (text & sources & Hkey). eauto.
  - apply (Horder [accra_file; weekly_file] [weekly_file; accra_file]
                  "accra" "NOUN_PHRASE"); try assumption.
    + apply perm_swap.
    + vm_compute. discriminate.
    + reflexivity.
Defined.

Lemma C10_null_title_example :
  same_phrases 1
    (process_csv toy_chunks toy_stop_words stable_kind
       (mkInputTable "daily" ["sentence"; "title"; "date"]
                     ([row "alpha" "T" "D"] ++ null_title_row :: [])))
    (process_csv toy_chunks toy_stop_words stable_kind
       (mkInputTable "daily" ["sentence"; "title"; "date"]
                     ([row "alpha" "T" "D"] ++ []))).
Proof.
  refine (proj1 (proj2 (proj2
    (C10_null_title_or_date toy_chunks toy_stop_words stable_kind "daily"
       ["sentence"; "title"; "date"] [row "alpha" "T" "D"] [] null_title_row _)))).
  left. reflexivity.
Defined.

(** C10, as the claim has it, fails on the summary table: the row with a
    null title leaves the phrase tables alone and raises the sentence count
    of its table from 1 to 2. *)
Lemma C10_counted_in_summary :
  extractor toy_chunks toy_stop_words stable_kind
    [ mkInputTable "daily" ["sentence"; "title"; "date"]
                   [row "alpha" "T" "D"; null_title_row] ]
    = inr {| all_results := [[mkPhraseRecord "alpha" NOUN_PHRASE 1 "daily"]];
             combined := Some [mkPhraseRecord "alpha" NOUN_PHRASE 1 "daily"];
             summary := [mkStats "daily" 2 1 1 1] |} /\
  extractor toy_chunks toy_stop_words stable_kind
    [ mkInputTable "daily" ["sentence"; "title"; "date"]
                   [row "alpha" "T" "D"] ]
    = inr {| all_results := [[mkPhraseRecord "alpha" NOUN_PHRASE 1 "daily"]];
             combined := Some [mkPhraseRecord "alpha" NOUN_PHRASE 1 "daily"];
             summary := [mkStats "daily" 1 1 1 1] |}.
Proof. split; reflexivity. Qed.

(** ** The further properties at work *)

Lemma X1_port_of_tema :
  strip_leading_stopwords toy_stop_words "the  The port of  Tema" = "port of Tema" /\
  strip_leading_stopwords toy_stop_words "port of Tema" = "port of Tema" /\
  toy_stop_words (PyStr.lower "port") = false.
Proof.
  destruct (X1_strip_leading_stopwords_idempotent toy_stop_words
              "the  The port of  Tema") as (_ & Hfirst & Hidem).
  split; [reflexivity|]. split.
  - exact Hidem.
  - apply Hfirst. reflexivity.
Defined.

Lemma X2_budget_records :
  exists csv_df st,
    process_csv toy_chunks toy_stop_words stable_kind budget_input
      = Processed csv_df st /\
    (forall r, In r csv_df ->
       pos r = NOUN_PHRASE /\ csv_source r = "budget" /\ 1 <= count r) /\
    NoDup (map (fun r => PyStr.lower (phrase r)) csv_df).
Proof.
  destruct (process_csv toy_chunks toy_stop_words stable_kind budget_input)
    as [m|e|csv_df st] eqn:Hrun; [discriminate Hrun | discriminate Hrun |].
  exists csv_df, st. split; [reflexivity|].
  destruct (X2_per_table_records toy_chunks toy_stop_words stable_kind
              budget_input Hrun) as [Hrows Hdistinct].
  split; [|exact Hdistinct].
  intros r Hr. destruct (Hrows r Hr) as (Hpos & Hsrc & _ & _ & _ & Hcount).
  repeat split; assumption.
Defined.

Lemma X3_budget_statistics :
  exists csv_df st,
    process_csv toy_chunks toy_stop_words stable_kind budget_input
      = Processed csv_df st /\
    total_sentences st = 4 /\
    total_articles st = 2 /\
    unique_noun_phrases st = 5 /\
    total_phrase_occurrences st = 8 /\
    sum_counts (map count csv_df) = 8.
Proof.
  destruct (process_csv toy_chunks toy_stop_words stable_kind budget_input)
    as [m|e|csv_df st] eqn:Hrun; [discriminate Hrun | discriminate Hrun |].
  exists csv_df, st. split; [reflexivity|].
  destruct (X3_table_statistics toy_chunks toy_stop_words stable_kind
              budget_input Hrun) as (_ & Hs & Ha & Hu & Ht & Hsum).
  rewrite Hs, Ha, Hu, Ht, Hsum. repeat split; reflexivity.
Defined.

Lemma X4_untitled_table_raises :
  process_csv toy_chunks toy_stop_words stable_kind untitled_table
    = Raised (KeyError "count") /\
  extractor toy_chunks toy_stop_words stable_kind [budget_input; untitled_table]
    = inl (KeyError "count").
Proof.
  destruct (X4_no_phrase_raises toy_chunks toy_stop_words stable_kind
              untitled_table eq_refl) as [Hiff Hrun].
  split.
  - apply Hiff. reflexivity.
  - apply Hrun; [reflexivity | right; left; reflexivity].
Defined.

Lemma X5_no_date_table_skipped :
  process_csv toy_chunks toy_stop_words stable_kind no_date_table
    = Skipped ["date"] /\
  extractor toy_chunks toy_stop_words stable_kind [no_date_table; budget_input]
    = extractor toy_chunks toy_stop_words stable_kind [budget_input] /\
  extractor toy_chunks toy_stop_words stable_kind [no_date_table]
    = inr {| all_results := []; combined := None; summary := [] |}.
Proof.
  assert (Hmissing : missing_cols no_date_table <> []) by discriminate.
  destruct (X5_missing_column_skipped toy_chunks toy_stop_words stable_kind
              no_date_table Hmissing) as [Hskip Hrun].
  split; [exact Hskip|]. split.
  - exact (Hrun [] [budget_input]).
  - exact (Hrun [] []).
Defined.

Lemma X6_budget_run :
  exists o,
    extractor toy_chunks toy_stop_words stable_kind
      [no_date_table; budget_input; alpha_beta] = inr o /\
    map st_csv_name (summary o) = ["budget"; "daily"] /\
    length (all_results o) = 2%nat.
Proof.
  destruct (extractor toy_chunks toy_stop_words stable_kind
              [no_date_table; budget_input; alpha_beta]) as [e|o] eqn:Hrun;
    [discriminate Hrun|].
  exists o. split; [reflexivity|].
  destruct (X6_run_outputs toy_chunks toy_stop_words stable_kind
              [no_date_table; budget_input; alpha_beta] Hrun)
    as (Hresults & Hnames & _).
  split; [exact Hnames|]. rewrite Hresults. reflexivity.
Defined.

Lemma X7_budget_with_null_sentence :
  process_csv toy_chunks toy_stop_words stable_kind
    (mkInputTable "budget" ["sentence"; "title"; "date"]
                  ([] ++ null_sentence_row :: budget_table))
  = process_csv toy_chunks toy_stop_words stable_kind
      (mkInputTable "budget" ["sentence"; "title"; "date"] ([] ++ budget_table)).
Proof.
  apply (X7_null_sentence_dropped toy_chunks toy_stop_words stable_kind "budget"
           ["sentence"; "title"; "date"] [] budget_table null_sentence_row).
  reflexivity.
Defined.

(** A row without a pos, and without a source, next to a row that has
    both. *)
Lemma X8_row_without_pos :
  snd (merge_csvs_by_phrase stable_kind
         ([tema_file] ++
          mkCsvFile "more.csv" "more"
            (Some (WithSource
               ([(phrase_row "Tema" "NOUN_PHRASE" 2, Some "more")] ++
                (mkPhraseRow (Some "tema") None 5, None) :: [])))
          :: []))
  = snd (merge_csvs_by_phrase stable_kind
           ([tema_file] ++
            mkCsvFile "more.csv" "more"
              (Some (WithSource
                 ([(phrase_row "Tema" "NOUN_PHRASE" 2, Some "more")] ++ [])))
            :: [])).
Proof.
  apply X8_merger_null_cells.
  - right. reflexivity.
  - right. exists "Tema". left. reflexivity.
  - right. exists "Tema". left. reflexivity.
Defined.

Lemma X9_accra_tema_shape :
  exists merged_df,
    snd (merge_csvs_by_phrase stable_kind [accra_file; broken_file; tema_file])
      = inr merged_df /\
    NoDup (map (fun r => (PyStr.lower (phrase r), pos r)) merged_df) /\
    sum_counts (map count merged_df) = 17.
Proof.
  destruct (X9_merged_table_shape stable_kind
              [accra_file; broken_file; tema_file])
    as (merged_df & Hdf & _ & Hdistinct & Hsum).
  - vm_compute. discriminate.
  - reflexivity.
  - exists merged_df. split; [exact Hdf|]. split; [exact Hdistinct|].
    rewrite Hsum; [reflexivity|].
    intros k p. apply nonneg_counts_fit.
    + vm_compute. repeat constructor; discriminate.
    + vm_compute. split; [discriminate | reflexivity].
Defined.

Lemma X10_port_of_accra_file :
  exists merged_df,
    snd (merge_csvs_by_phrase stable_kind [accra_file]) = inr merged_df /\
    filter (stands_for "port" "NOUN_PHRASE") merged_df
    = [ mkPhraseRecord "port" "NOUN_PHRASE" 1 "accra" ].
Proof.
  assert (Hrow := @X10_merger_single_row stable_kind [accra_file]
                    (with_lower (phrase_row "port" "NOUN_PHRASE" 1) (Some "accra"))
                    "port" "NOUN_PHRASE").
  replace (text_sources (concat (loaded_frames [accra_file]))) with true in Hrow
    by reflexivity.
  destruct Hrow as (merged_df & src & Hdf & Hsrc & Hone).
  - vm_compute. discriminate.
  - reflexivity.
  - reflexivity.
  - exists merged_df. split; [exact Hdf|].
    injection Hsrc as <-. exact Hone.
Defined.

Lemma X12_budget_alone :
  exists csv_df st,
    process_csv toy_chunks toy_stop_words stable_kind budget_input
      = Processed csv_df st /\
    Permutation csv_df (aggregated stable_kind [csv_df]).
Proof.
  destruct (process_csv toy_chunks toy_stop_words stable_kind budget_input)
    as [m|e|csv_df st] eqn:Hrun; [discriminate Hrun | discriminate Hrun |].
  exists csv_df, st. split; [reflexivity|].
  exact (proj1 (X12_single_table_combined toy_chunks toy_stop_words stable_kind
                  budget_input Hrun)).
Defined.

Lemma X13_budget_bounds :
  exists csv_df st,
    process_csv toy_chunks toy_stop_words stable_kind budget_input
      = Processed csv_df st /\
    1 <= total_articles st <= total_sentences st /\
    1 <= unique_noun_phrases st <= total_phrase_occurrences st.
Proof.
  destruct (process_csv toy_chunks toy_stop_words stable_kind budget_input)
    as [m|e|csv_df st] eqn:Hrun; [discriminate Hrun | discriminate Hrun |].
  exists csv_df, st. split; [reflexivity|].
  exact (X13_statistics_bounds toy_chunks toy_stop_words stable_kind
           budget_input Hrun).
Defined.

(** In the budget table "port" stays as it is and "accra" shows as "Accra";
    in the numbered table the article dated 9 comes first and "accra" shows
    as "ACCRA". *)
Lemma X14_port_and_accra :
  canonical "port" (table_dict toy_chunks toy_stop_words budget_table)
    = Some "port" /\
  canonical "accra" (table_dict toy_chunks toy_stop_words budget_table)
    = Some "Accra" /\
  In "Accra" (filter (same_key "accra")
                     (table_phrases toy_chunks toy_stop_words budget_table)) /\
  canonical "accra" (table_dict toy_chunks toy_stop_words numbered_table)
    = Some "ACCRA".
Proof.
  destruct (X14_canonical_text toy_chunks toy_stop_words budget_table "port")
    as [Hport _].
  destruct (X14_canonical_text toy_chunks toy_stop_words budget_table "accra")
    as [Haccra Hobserved].
  destruct (X14_canonical_text toy_chunks toy_stop_words numbered_table "accra")
    as [Hnumbered _].
  split; [exact Hport|]. split; [exact Haccra|]. split; [|exact Hnumbered].
  apply Hobserved. exact Haccra.
Defined.


